(** * brush.js: the file-processing pipeline

    A shallow embedding of [src/brush.js] (a Node.js command line tool that
    sends every matched file through a chat-completion request and
    overwrites it with the answer), and the properties of its
    specification stated over that embedding.

    JavaScript strings are sequences of UTF-16 code units; they are modelled
    as [list N].  The file system is a finite map from absolute paths to
    files.  The effects of [main] (reading, requesting, writing, sleeping,
    console output, [process.exit]) are threaded through a small monad that
    carries the file system, collects the events in the order in which they
    happen, and stops at [process.exit]. *)

From Stdlib Require Import ZArith NArith Lia String Ascii.
From stdpp Require Import base option list gmap.

Local Open Scope N_scope.

(** ** JavaScript strings *)

Module JS.

(** A string value: its UTF-16 code units. *)
Definition jsstring := list N.

(** The code units of an ASCII literal. *)
Definition lit (s : string) : jsstring :=
  map N_of_ascii (list_ascii_of_string s).

(** Code units the source names. *)
Definition DOLLAR : N := 36.
Definition AMPERSAND : N := 38.
Definition APOSTROPHE : N := 39.
Definition BACKTICK : N := 96.
Definition LBRACE : N := 123.
Definition RBRACE : N := 125.

(** [\s] of an ECMAScript regular expression: WhiteSpace and
    LineTerminator code points. *)
Definition is_whitespace (c : N) : bool :=
  (9 <=? c) && (c <=? 13)
  || (c =? 32) || (c =? 160) || (c =? 5760)
  || (8192 <=? c) && (c <=? 8202)
  || (c =? 8232) || (c =? 8233) || (c =? 8239) || (c =? 8287)
  || (c =? 12288) || (c =? 65279).

(** *** Regular expressions of the shape the source uses

    [/{{\s*CONTENT\s*}}/g] is a sequence of literal characters and of
    greedy [\s*] items. *)
Inductive atom :=
| Char (c : N)
| StarWs.

Definition regexp := list atom.

(** Backtracking match of a pattern at the start of [s]: the rest of the
    input after the match, if there is one.  A starred item first takes
    one more character and gives it back when the remainder of the pattern
    fails (greedy, as in the language's matcher). *)
Fixpoint match_here (p : regexp) (s : jsstring) : option jsstring :=
  match p with
  | [] => Some s
  | Char c :: p' =>
      match s with
      | x :: s' => if x =? c then match_here p' s' else None
      | [] => None
      end
  | StarWs :: p' =>
      (fix star (s : jsstring) : option jsstring :=
         match s with
         | x :: s' =>
             if is_whitespace x then
               match star s' with
               | Some r => Some r
               | None => match_here p' s
               end
             else match_here p' s
         | [] => match_here p' s
         end) s
  end.

(** GetSubstitution for a pattern without capture groups: in the
    replacement text [$$] is a dollar sign, [$&] the matched text,
    [$`] the text before the match and [$'] the text after it; a dollar
    sign followed by anything else stands for itself. *)
Fixpoint GetSubstitution (matched before after replacement : jsstring)
  : jsstring :=
  match replacement with
  | [] => []
  | c :: r =>
      if c =? DOLLAR then
        match r with
        | d :: r' =>
            if d =? DOLLAR then
              DOLLAR :: GetSubstitution matched before after r'
            else if d =? AMPERSAND then
              matched ++ GetSubstitution matched before after r'
            else if d =? BACKTICK then
              before ++ GetSubstitution matched before after r'
            else if d =? APOSTROPHE then
              after ++ GetSubstitution matched before after r'
            else c :: GetSubstitution matched before after r
        | [] => [c]
        end
      else c :: GetSubstitution matched before after r
  end.

(** [String.prototype.replace] with a global pattern.  The subject is
    scanned from the left; [before] is the part of the subject already
    passed and [skip] the number of characters of the current match that
    are still to be passed over.  Where the pattern matches, the
    substitution is appended and the scan resumes after the match (one
    character further on when the match is empty); elsewhere the character
    is kept. *)
Fixpoint replace_scan (p : regexp) (replacement before : jsstring)
    (skip : nat) (s : jsstring) : jsstring :=
  match s with
  | [] =>
      match skip, match_here p [] with
      | O, Some rest => GetSubstitution [] before rest replacement
      | _, _ => []
      end
  | x :: s' =>
      match skip with
      | S k => replace_scan p replacement (before ++ [x]) k s'
      | O =>
          match match_here p s with
          | Some rest =>
              match (length s - length rest)%nat with
              | S k =>
                  GetSubstitution (take (S k) s) before rest replacement
                    ++ replace_scan p replacement (before ++ [x]) k s'
              | O =>
                  GetSubstitution [] before rest replacement
                    ++ x :: replace_scan p replacement (before ++ [x]) O s'
              end
          | None => x :: replace_scan p replacement (before ++ [x]) O s'
          end
      end
  end.

Definition replace (p : regexp) (subject replacement : jsstring) : jsstring :=
  replace_scan p replacement [] O subject.

End JS.

Import JS.

(** ** The template renderer (brush.js, line 124) *)

(** [/{{\s*CONTENT\s*}}/g] *)
Definition CONTENT_RE : regexp :=
  [Char LBRACE; Char LBRACE; StarWs]
    ++ map Char (lit "CONTENT")
    ++ [StarWs; Char RBRACE; Char RBRACE].

(** [userPromptTemplate.replace(/{{\s*CONTENT\s*}}/g, content)] *)
Definition render (userPromptTemplate content : jsstring) : jsstring :=
  replace CONTENT_RE userPromptTemplate content.


(** ** The placeholder token *)

Definition whitespace (ws : jsstring) : Prop :=
  Forall (fun c => is_whitespace c = true) ws.

(** A token, in the words of the specification: the name between double
    braces, with any white space around it. *)
Definition is_token (tok : jsstring) : Prop :=
  exists ws1 ws2,
    whitespace ws1 /\ whitespace ws2 /\
    tok = lit "{{" ++ ws1 ++ lit "CONTENT" ++ ws2 ++ lit "}}".

(** The number of places of [s] at which a token starts. *)
Fixpoint count_tokens (s : jsstring) : nat :=
  match s with
  | [] => 0
  | _ :: s' =>
      (match match_here CONTENT_RE s with Some _ => 1 | None => 0 end)
        + count_tokens s'
  end.

(** [c] is at the start of [s]. *)
Fixpoint starts_with (c s : jsstring) : bool :=
  match c, s with
  | [], _ => true
  | x :: c', y :: s' => (x =? y) && starts_with c' s'
  | _ :: _, [] => false
  end.

(** The number of places of [s] at which [c] starts. *)
Fixpoint occurrences (c s : jsstring) : nat :=
  match s with
  | [] => if starts_with c [] then 1 else 0
  | _ :: s' => (if starts_with c s then 1 else 0) + occurrences c s'
  end.

(** A content without [$$], [$&], [$`] and [$']: a dollar sign in it is
    followed by another character, or by nothing. *)
Definition is_pattern_char (d : N) : bool :=
  (d =? DOLLAR) || (d =? AMPERSAND) || (d =? BACKTICK) || (d =? APOSTROPHE).

Fixpoint pattern_free (c : jsstring) : bool :=
  match c with
  | [] => true
  | x :: r =>
      if x =? DOLLAR then
        match r with
        | d :: _ => negb (is_pattern_char d) && pattern_free r
        | [] => true
        end
      else pattern_free r
  end.

(** A content in which GetSubstitution finds nothing to expand. *)
Definition dollar_free (c : jsstring) : bool :=
  forallb (fun x => negb (x =? DOLLAR)) c.

(** A text cut at its tokens: the piece before the first token, and each
    token with the piece that follows it.  [fill] puts it together again
    with [f] applied to the tokens. *)
Definition fill (f : jsstring -> jsstring) (s0 : jsstring)
    (rest : list (jsstring * jsstring)) : jsstring :=
  s0 ++ flat_map (fun p => f (fst p) ++ snd p) rest.

(** The white space at the start of [s], passed over. *)
Fixpoint skip_ws (s : jsstring) : jsstring :=
  match s with
  | x :: s' => if is_whitespace x then skip_ws s' else s
  | [] => []
  end.

(** What a match of [CONTENT_RE] comes to, step by step (see
    [match_here_CONTENT_RE]). *)
Definition match_token (s : jsstring) : option jsstring :=
  match s with
  | a :: b :: s1 =>
      if (a =? LBRACE) && (b =? LBRACE) then
        let s2 := skip_ws s1 in
        if decide (take 7 s2 = lit "CONTENT") then
          match skip_ws (drop 7 s2) with
          | x :: y :: rest =>
              if (x =? RBRACE) && (y =? RBRACE) then Some rest else None
          | _ => None
          end
        else None
      else None
  | _ => None
  end.


(** ** The world of a run *)

Definition path := jsstring.

(** A file: its text, and whether reading and writing it succeed. *)
Record file := File {
  file_data : jsstring;
  file_readable : bool;
  file_writable : bool
}.

(** What an operation of the platform or of a library gives back: a value,
    or a thrown error with its [message]. *)
Inductive attempt (A : Type) :=
| Ok (a : A)
| Throws (message : jsstring).
Arguments Ok {A} a.
Arguments Throws {A} message.

(** [fs.readFile(p, "utf-8")] *)
Definition fs_readFile (fs : gmap path file) (p : path) : attempt jsstring :=
  match fs !! p with
  | Some f => if file_readable f then Ok (file_data f) else Throws (lit "EACCES")
  | None => Throws (lit "ENOENT")
  end.

(** The text that a file holds after [data] was written to it as UTF-8:
    a high surrogate followed by a low one is a character and is kept, any
    other surrogate has no encoding and is written as U+FFFD. *)
Definition is_high_surrogate (c : N) : bool := (55296 <=? c) && (c <=? 56319).
Definition is_low_surrogate (c : N) : bool := (56320 <=? c) && (c <=? 57343).
Definition REPLACEMENT : N := 65533.

Fixpoint toWellFormed (s : jsstring) : jsstring :=
  match s with
  | [] => []
  | c :: s' =>
      if is_high_surrogate c then
        match s' with
        | d :: s'' =>
            if is_low_surrogate d then c :: d :: toWellFormed s''
            else REPLACEMENT :: toWellFormed s'
        | [] => [REPLACEMENT]
        end
      else if is_low_surrogate c then REPLACEMENT :: toWellFormed s'
      else c :: toWellFormed s'
  end.

(** [fs.writeFile(p, data, "utf-8")]: the whole text of the file is
    replaced by [data] as UTF-8 encodes it; a file that does not exist is
    created. *)
Definition fs_writeFile (fs : gmap path file) (p : path) (data : jsstring)
  : attempt (gmap path file) :=
  match fs !! p with
  | Some f =>
      if file_writable f
      then Ok (<[p := File (toWellFormed data) (file_readable f) true]> fs)
      else Throws (lit "EACCES")
  | None => Ok (<[p := File (toWellFormed data) true true]> fs)
  end.

(** The chat-completion exchange. *)
Inductive role := system | user.

Record chat_message := ChatMessage {
  msg_role : role;
  msg_content : jsstring
}.

Record request := Request {
  req_model : jsstring;
  req_messages : list chat_message
}.

(** A choice of a response, with the content of its message as the types
    of the client library have it: a string, or [null] (here [None]). *)
Record choice := Choice {
  choice_content : option jsstring
}.

(** A response; [None] is a [choices] field that is missing or no array. *)
Record response := Response {
  resp_choices : option (list choice)
}.

(** The configuration, as destructured at line 58. *)
Record config := Config {
  patterns : list jsstring;
  ignore : list jsstring;
  dryRun : bool;
  model : jsstring;
  intervalMilis : N
}.

(** The collaborators of [main]: the working directory and
    [path.relative(cwd, _)], the two prompt texts, fast-glob,
    [process.env.OPENAI_API_KEY] and the completion service.  The service
    answers a request knowing how many requests it has received before, so
    that the same request may be answered differently later. *)
Record environment := Environment {
  cwd : path;
  path_relative : path -> path -> jsstring;
  systemPrompt : jsstring;
  userPromptTemplate : jsstring;
  glob : list jsstring -> list jsstring -> attempt (list path);
  OPENAI_API_KEY : option jsstring;
  create : nat -> request -> attempt response
}.

(** Console output, one constructor for each call of the source, with the
    values interpolated into its text. *)
Inductive message :=
| GlobbingError (err : jsstring)              (* line 95 *)
| NoFilesMatched                              (* line 100 *)
| ApiKeyNotSet                                (* line 107 *)
| CouldNotRead (relative err : jsstring)      (* line 119 *)
| ReturnedStatus (relative : jsstring)        (* line 139 *)
| RequestFailed (relative err : jsstring)     (* line 143 *)
| Found (n : nat) (dry : bool)                (* line 149 *)
| Processing (relative : jsstring)            (* line 153 *)
| Skipping (relative : jsstring)              (* line 157 *)
| DryRunHeader                                (* line 163 *)
| Output (result : jsstring)                  (* line 164 *)
| DryRunFooter                                (* line 165 *)
| Overwrote (relative : jsstring)             (* line 172 *)
| FailedToWrite (relative err : jsstring)     (* line 174 *)
| AllDone.                                    (* line 181 *)

(** What a run does, in the order in which it does it. *)
Inductive event :=
| EGlob (pats ign : list jsstring)
| EReadFile (p : path)
| ECreate (r : request)
| EWriteFile (p : path) (data : jsstring)
| ESetTimeout (ms : N)
| ELog (m : message)
| EError (m : message).

(** ** The monad of [main] *)

Record state := State {
  st_fs : gmap path file;
  st_requests : nat
}.

(** A computation returns, or ends the process with an exit code. *)
Inductive outcome (A : Type) :=
| Return (a : A)
| ProcessExit (code : Z).
Arguments Return {A} a.
Arguments ProcessExit {A} code.

Definition io (A : Type) : Type := state -> outcome A * state * list event.

Definition ret {A} (a : A) : io A := fun st => (Return a, st, []).

Definition bind {A B} (m : io A) (k : A -> io B) : io B :=
  fun st =>
    match m st with
    | (Return a, st', tr) =>
        match k a st' with
        | (r, st'', tr') => (r, st'', tr ++ tr')
        end
    | (ProcessExit code, st', tr) => (ProcessExit code, st', tr)
    end.

Notation "x <- m ;; k" := (bind m (fun x => k))
  (at level 100, m at next level, right associativity).
Notation "m ;;; k" := (bind m (fun _ => k))
  (at level 100, right associativity).

Definition emit (e : event) : io unit := fun st => (Return tt, st, [e]).
Definition console_log (m : message) : io unit := emit (ELog m).
Definition console_error (m : message) : io unit := emit (EError m).
Definition process_exit {A} (code : Z) : io A :=
  fun st => (ProcessExit code, st, []).

(** [await fs.readFile(p, "utf-8")] *)
Definition readFile (p : path) : io (attempt jsstring) :=
  fun st => (Return (fs_readFile (st_fs st) p), st, [EReadFile p]).

(** [await fs.writeFile(p, data, "utf-8")] *)
Definition writeFile (p : path) (data : jsstring) : io (attempt unit) :=
  fun st =>
    match fs_writeFile (st_fs st) p data with
    | Ok fs' => (Return (Ok tt), State fs' (st_requests st), [EWriteFile p data])
    | Throws err => (Return (Throws err), st, [EWriteFile p data])
    end.

(** [await new Promise((res) => setTimeout(res, ms))] *)
Definition sleep (ms : N) : io unit := emit (ESetTimeout ms).

(** [for (const x of l) body] ; a [continue] is the end of [body]. *)
Fixpoint for_of {A} (l : list A) (body : A -> io unit) : io unit :=
  match l with
  | [] => ret tt
  | x :: l' => body x ;;; for_of l' body
  end.

(** ** [main], from step 4 on

    Steps 1 to 3 of [main] (lines 45 to 82) load the configuration and the
    two prompt texts, or end the process with code 1 before anything else
    happens.  What follows is the rest of the function (lines 84 to 181),
    run on what those steps loaded. *)

Section Main.

Context (env : environment) (cfg : config).

(** [await glob(patterns, { ignore, ... })], lines 87 to 93 *)
Definition fast_glob : io (attempt (list path)) :=
  fun st => (Return (glob env (patterns cfg) (ignore cfg)), st,
             [EGlob (patterns cfg) (ignore cfg)]).

(** [await openai.chat.completions.create(r)] *)
Definition chat_completions_create (r : request) : io (attempt response) :=
  fun st =>
    (Return (create env (st_requests st) r),
     State (st_fs st) (S (st_requests st)),
     [ECreate r]).

(** [processFile], lines 113 to 146; [None] is [null]. *)
Definition processFile (filePath : path) : io (option jsstring) :=
  let relative := path_relative env (cwd env) filePath in
  r <- readFile filePath ;;
  match r with
  | Throws err =>
      console_error (CouldNotRead relative err) ;;;
      ret None
  | Ok content =>
      let userPrompt := render (userPromptTemplate env) content in
      r <- chat_completions_create
             (Request (model cfg)
                [ChatMessage system (systemPrompt env);
                 ChatMessage user userPrompt]) ;;
      match r with
      | Ok resp =>
          match resp_choices resp with
          | Some (c :: _) => ret (choice_content c)
          | _ =>
              console_error (ReturnedStatus relative) ;;;
              ret None
          end
      | Throws err =>
          console_error (RequestFailed relative err) ;;;
          ret None
      end
  end.

(** The body of the loop, lines 152 to 178. *)
Definition loop_body (filePath : path) : io unit :=
  let relative := path_relative env (cwd env) filePath in
  console_log (Processing relative) ;;;
  result <- processFile filePath ;;
  match result with
  | None =>
      console_error (Skipping relative) ;;;
      if dryRun cfg then process_exit 1 else ret tt
  | Some result =>
      if dryRun cfg then
        console_log DryRunHeader ;;;
        console_log (Output result) ;;;
        console_log DryRunFooter ;;;
        process_exit 0
      else
        w <- writeFile filePath result ;;
        match w with
        | Ok _ => console_log (Overwrote relative)
        | Throws err => console_error (FailedToWrite relative err)
        end ;;;
        sleep (intervalMilis cfg)
  end.

(** [!apiKey]: the variable is unset or empty. *)
Definition falsy (s : option jsstring) : bool :=
  match s with
  | Some (_ :: _) => false
  | _ => true
  end.

Definition main : io unit :=
  g <- fast_glob ;;
  match g with
  | Throws err =>
      console_error (GlobbingError err) ;;;
      process_exit 1
  | Ok entries =>
      (if decide (length entries = 0%nat)
       then console_log NoFilesMatched ;;; process_exit 0
       else ret tt) ;;;
      (if falsy (OPENAI_API_KEY env)
       then console_error ApiKeyNotSet ;;; process_exit 1
       else ret tt) ;;;
      console_log (Found (length entries) (dryRun cfg)) ;;;
      for_of entries loop_body ;;;
      console_log AllDone
  end.

End Main.

(** A run of the program on a file system: how it ends, the file system it
    leaves, and what it did. *)
Definition run (env : environment) (cfg : config) (fs : gmap path file)
  : outcome unit * gmap path file * list event :=
  match main env cfg (State fs 0) with
  | (r, st, tr) => (r, st_fs st, tr)
  end.

(** The exit code of the process: that of [process.exit], or 0 when [main]
    returns. *)
Definition exit_code {A} (r : outcome A) : Z :=
  match r with
  | Return _ => 0
  | ProcessExit code => code
  end.

(** ** Reading a trace *)

Definition reads (tr : list event) : list path :=
  omap (fun e => match e with EReadFile p => Some p | _ => None end) tr.

Definition requests (tr : list event) : list request :=
  omap (fun e => match e with ECreate r => Some r | _ => None end) tr.

Definition writes (tr : list event) : list (path * jsstring) :=
  omap (fun e => match e with EWriteFile p d => Some (p, d) | _ => None end) tr.

Definition delays (tr : list event) : list N :=
  omap (fun e => match e with ESetTimeout ms => Some ms | _ => None end) tr.

Definition globs (tr : list event) : nat :=
  length (omap (fun e => match e with EGlob _ _ => Some tt | _ => None end) tr).

(** The targets announced as being processed, and those reported as
    skipped, by the name printed for them. *)
Definition processed (tr : list event) : list jsstring :=
  omap (fun e => match e with ELog (Processing r) => Some r | _ => None end) tr.

Definition skipped (tr : list event) : list jsstring :=
  omap (fun e => match e with EError (Skipping r) => Some r | _ => None end) tr.

Definition printed (tr : list event) : list jsstring :=
  omap (fun e => match e with ELog (Output r) => Some r | _ => None end) tr.

(** ** The outcome of a transform *)

(** The request built for a file with text [content] (lines 127 to 133). *)
Definition completion_request (env : environment) (cfg : config)
    (content : jsstring) : request :=
  Request (model cfg)
    [ChatMessage system (systemPrompt env);
     ChatMessage user (render (userPromptTemplate env) content)].

(** The outcomes of the specification's data model, and with them the case
    of a first choice whose content is [null]. *)
Inductive TransformOutcome :=
| Success (text : jsstring)
| ReadFailure (reason : jsstring)
| RequestFailure (reason : jsstring)
| EmptyResponseFailure
| NullContent.

(** The outcome for [filePath] in state [st], read off what the file system
    and the service answer there. *)
Definition transform (env : environment) (cfg : config) (st : state)
    (filePath : path) : TransformOutcome :=
  match fs_readFile (st_fs st) filePath with
  | Throws err => ReadFailure err
  | Ok content =>
      match create env (st_requests st) (completion_request env cfg content) with
      | Throws err => RequestFailure err
      | Ok resp =>
          match resp_choices resp with
          | Some (c :: _) =>
              match choice_content c with
              | Some text => Success text
              | None => NullContent
              end
          | _ => EmptyResponseFailure
          end
      end
  end.

Definition returned_text (o : TransformOutcome) : option jsstring :=
  match o with
  | Success text => Some text
  | _ => None
  end.

(** The name printed for a target. *)
Definition relative (env : environment) (filePath : path) : jsstring :=
  path_relative env (cwd env) filePath.

(** ** Concrete runs *)

Module Scenario.

Definition a_js : path := lit "/w/a.js".
Definition b_js : path := lit "/w/b.js".
Definition c_js : path := lit "/w/c.js".
Definition gone_js : path := lit "/w/gone.js".

(** Three files that can be read and written; [gone.js] is not there. *)
Definition fs0 : gmap path file :=
  <[a_js := File (lit "A") true true]>
    (<[b_js := File (lit "B") true true]>
       (<[c_js := File (lit "C") true true]> ∅)).

(** The service answers the first three requests with A2, B2 and C2. *)
Definition answers (n : nat) (_ : request) : attempt response :=
  match n with
  | 0%nat => Ok (Response (Some [Choice (Some (lit "A2"))]))
  | 1%nat => Ok (Response (Some [Choice (Some (lit "B2"))]))
  | 2%nat => Ok (Response (Some [Choice (Some (lit "C2"))]))
  | _ => Throws (lit "429")
  end.


(** A service whose first choice has a [null] content. *)
Definition null_answer (_ : nat) (_ : request) : attempt response :=
  Ok (Response (Some [Choice None])).

Definition env0 (key : option jsstring) (entries : list path)
    (service : nat -> request -> attempt response) : environment :=
  Environment (lit "/w") (fun from p => drop (S (length from)) p)
    (lit "You refactor code.") (lit "Refactor: {{ CONTENT }}")
    (fun _ _ => Ok entries) key service.

Definition cfg0 (dry : bool) : config :=
  Config [lit "*.js"] [] dry (lit "gpt-4o-mini") 500.

Definition key : option jsstring := Some (lit "sk-1").

End Scenario.

(** The file system after an attempt to write [text] to [p]. *)
Definition written (fs : gmap path file) (p : path) (text : jsstring)
  : gmap path file :=
  match fs_writeFile fs p text with
  | Ok fs' => fs'
  | Throws _ => fs
  end.

(** A content with each dollar sign written twice. *)
Definition double_dollars (c : jsstring) : jsstring :=
  flat_map (fun x => if x =? DOLLAR then [DOLLAR; DOLLAR] else [x]) c.

(** The files the matcher returns, none when it fails. *)
Definition matched_files (env : environment) (cfg : config) : list path :=
  match glob env (patterns cfg) (ignore cfg) with
  | Ok entries => entries
  | Throws _ => []
  end.

(** The request that a file gives rise to in file system [fs], if it can
    be read there. *)
Definition request_for (env : environment) (cfg : config)
    (fs : gmap path file) (filePath : path) : option request :=
  match fs_readFile fs filePath with
  | Ok content => Some (completion_request env cfg content)
  | Throws _ => None
  end.

(** ** The start of the program (lines 34 to 82) and the whole of it

    [parseConfigArg] and steps 1 to 3 of [main]: the command line, the
    configuration file and the two prompt files.  They only read; what they
    load is handed to the rest of [main] above. *)

Module Cli.

(** [s.split(sep)] for a separator of one character: the pieces of [s]
    between the separators, at least one. *)
Fixpoint split (sep : N) (s : jsstring) : list jsstring :=
  match s with
  | [] => [[]]
  | x :: s' =>
      if x =? sep then [] :: split sep s'
      else match split sep s' with
           | piece :: pieces => (x :: piece) :: pieces
           | [] => [[x]]
           end
  end.

(** [arg.startsWith(prefix)] *)
Definition startsWith (arg prefix : jsstring) : bool := starts_with prefix arg.

Definition EQUALS : N := 61.

(** What [JSON.parse] gives for the configuration file: an object whose
    fields are there or not, each of the type the header of the source
    documents for it. *)
Record parsed_config := ParsedConfig {
  json_patterns : option (list jsstring);
  json_ignore : option (list jsstring);
  json_dryRun : option bool;
  json_model : option jsstring;
  json_intervalMilis : option N
}.

(** The platform: the command line, the working directory, [path.join],
    [path.relative], [JSON.parse], fast-glob, the environment variable and
    the completion service. *)
Record platform := Platform {
  process_argv : list jsstring;
  process_cwd : path;
  path_join : path -> jsstring -> path;
  path_relative_to : path -> path -> jsstring;
  JSON_parse : jsstring -> attempt parsed_config;
  fast_glob_of : list jsstring -> list jsstring -> attempt (list path);
  process_env_OPENAI_API_KEY : option jsstring;
  completions_create : nat -> request -> attempt response
}.

(** Console output of the start, one constructor for each call. *)
Inductive startup_message :=
| Usage                                                       (* line 40 *)
| ConfigFailed (configPath : option jsstring) (err : jsstring) (* line 54 *)
| PatternsMustBeNonEmpty (configPath : option jsstring)       (* line 61 *)
| SystemPromptFailed (p : path) (err : jsstring)              (* line 74 *)
| UserPromptFailed (p : path) (err : jsstring).               (* line 80 *)

Inductive startup_event :=
| SReadFile (p : path)
| SError (m : startup_message).

(** The start changes nothing: a computation returns or ends the process,
    and leaves the events it made. *)
Definition boot (A : Type) : Type := outcome A * list startup_event.

Definition boot_ret {A} (a : A) : boot A := (Return a, []).

Definition boot_bind {A B} (m : boot A) (k : A -> boot B) : boot B :=
  match m with
  | (Return a, tr) =>
      match k a with
      | (r, tr') => (r, tr ++ tr')
      end
  | (ProcessExit code, tr) => (ProcessExit code, tr)
  end.

Notation "x <~ m ;; k" := (boot_bind m (fun x => k))
  (at level 100, m at next level, right associativity).
Notation "m ~;; k" := (boot_bind m (fun _ => k))
  (at level 100, right associativity).

Definition boot_error (m : startup_message) : boot unit :=
  (Return tt, [SError m]).
Definition boot_exit {A} (code : Z) : boot A := (ProcessExit code, []).

(** [await fs.readFile(p, "utf-8")] where [p] may be [undefined] (here
    [None]), which the platform refuses without reading anything. *)
Definition boot_readFile (fs : gmap path file) (p : option path)
  : boot (attempt jsstring) :=
  match p with
  | Some p => (Return (fs_readFile fs p), [SReadFile p])
  | None => (Return (Throws (lit "ERR_INVALID_ARG_TYPE")), [])
  end.

(** [parseConfigArg], lines 34 to 42, on [process.argv.slice(2)]; the
    result [None] is [undefined]. *)
Fixpoint parseConfigArg_from (args : list jsstring) : boot (option jsstring) :=
  match args with
  | [] =>
      boot_error Usage ~;;
      boot_exit 1
  | arg :: args' =>
      if startsWith arg (lit "--config=")
      then boot_ret (split EQUALS arg !! 1%nat)
      else parseConfigArg_from args'
  end.

Definition parseConfigArg (pf : platform) : boot (option jsstring) :=
  parseConfigArg_from (drop 2 (process_argv pf)).

(** Steps 1 to 3 of [main], lines 45 to 82: what the rest of [main] runs
    on. *)
Definition startup (pf : platform) (fs : gmap path file)
  : boot (environment * config) :=
  configPath <~ parseConfigArg pf ;;
  raw <~ boot_readFile fs configPath ;;
  parsed <~ match raw with
            | Ok raw =>
                match JSON_parse pf raw with
                | Ok parsed => boot_ret parsed
                | Throws err =>
                    boot_error (ConfigFailed configPath err) ~;;
                    boot_exit 1
                end
            | Throws err =>
                boot_error (ConfigFailed configPath err) ~;;
                boot_exit 1
            end ;;
  let patterns := default [] (json_patterns parsed) in
  let ignore := default [] (json_ignore parsed) in
  let dryRun := default false (json_dryRun parsed) in
  let model := default (lit "gpt-3.5-turbo") (json_model parsed) in
  let intervalMilis := default 1000 (json_intervalMilis parsed) in
  (if decide (length patterns = 0%nat)
   then boot_error (PatternsMustBeNonEmpty configPath) ~;; boot_exit 1
   else boot_ret tt) ~;;
  let cwd := process_cwd pf in
  let systemPromptPath := path_join pf cwd (lit "brush.system.md") in
  let userPromptTemplatePath := path_join pf cwd (lit "brush.prompt.md") in
  s <~ boot_readFile fs (Some systemPromptPath) ;;
  systemPrompt <~ match s with
                  | Ok text => boot_ret text
                  | Throws err =>
                      boot_error (SystemPromptFailed systemPromptPath err) ~;;
                      boot_exit 1
                  end ;;
  u <~ boot_readFile fs (Some userPromptTemplatePath) ;;
  userPromptTemplate <~ match u with
                        | Ok text => boot_ret text
                        | Throws err =>
                            boot_error
                              (UserPromptFailed userPromptTemplatePath err) ~;;
                            boot_exit 1
                        end ;;
  boot_ret
    (Environment cwd (path_relative_to pf) systemPrompt userPromptTemplate
       (fast_glob_of pf) (process_env_OPENAI_API_KEY pf)
       (completions_create pf),
     Config patterns ignore dryRun model intervalMilis).

(** The whole program: the start, then the rest of [main] on what was
    loaded.  The events of the two parts are kept apart. *)
Definition brush (pf : platform) (fs : gmap path file)
  : outcome unit * gmap path file * list (startup_event + event) :=
  match startup pf fs with
  | (Return (env, cfg), tr0) =>
      match run env cfg fs with
      | (r, fs', tr) => (r, fs', map inl tr0 ++ map inr tr)
      end
  | (ProcessExit code, tr0) => (ProcessExit code, fs, map inl tr0)
  end.

(** The events of the second part, and the files read by the first. *)
Definition pipeline (tr : list (startup_event + event)) : list event :=
  omap (fun e => match e with inr e => Some e | inl _ => None end) tr.

Definition startup_reads (tr : list (startup_event + event)) : list path :=
  omap (fun e => match e with inl (SReadFile p) => Some p | _ => None end) tr.

Definition startup_errors (tr : list (startup_event + event))
  : list startup_message :=
  omap (fun e => match e with inl (SError m) => Some m | _ => None end) tr.

(** A platform for concrete runs: the files of [Scenario] with a
    configuration and the two prompts beside them. *)
Definition config_json : path := lit "/w/brush.config.json".
Definition system_md : path := lit "/w/brush.system.md".
Definition prompt_md : path := lit "/w/brush.prompt.md".

Definition fs1 : gmap path file :=
  <[config_json := File (lit "{...}") true true]>
    (<[system_md := File (lit "You refactor code.") true true]>
       (<[prompt_md := File (lit "Refactor: {{ CONTENT }}") true true]>
          Scenario.fs0)).

Definition platform0 (args : list jsstring) (parsed : parsed_config)
    (entries : list path) : platform :=
  Platform (lit "node" :: lit "brush" :: args) (lit "/w")
    (fun dir name => dir ++ lit "/" ++ name)
    (fun from p => drop (S (length from)) p)
    (fun _ => Ok parsed)
    (fun _ _ => Ok entries) Scenario.key Scenario.answers.

Definition only_patterns : parsed_config :=
  ParsedConfig (Some [lit "*.js"]) None None None None.

End Cli.

(** * Proofs *)

(** *** The pattern matches exactly the tokens *)

Lemma skip_ws_split s :
  exists ws, whitespace ws /\ s = ws ++ skip_ws s.
Proof.
  induction s as [|x s [ws [Hws Hs]]]; simpl.
  - exists []. split; [constructor | reflexivity].
  - destruct (is_whitespace x) eqn:Hx.
    + exists (x :: ws). split; [by constructor |]. simpl. by f_equal.
    + exists []. split; [constructor | reflexivity].
Qed.

Lemma skip_ws_app ws r :
  whitespace ws ->
  match r with x :: _ => is_whitespace x = false | [] => True end ->
  skip_ws (ws ++ r) = r.
Proof.
  intros Hws Hr. induction Hws as [|x ws Hx _ IH]; simpl.
  - destruct r as [|y r]; [done|]. simpl. by rewrite Hr.
  - by rewrite Hx.
Qed.

(** A greedy [\s*] before a character that is no white space takes all
    the white space there is. *)
Lemma match_star_char c q s :
  is_whitespace c = false ->
  match_here (StarWs :: Char c :: q) s = match_here (Char c :: q) (skip_ws s).
Proof.
  intros Hc. induction s as [|x s IH]; [reflexivity|].
  change (match_here (StarWs :: Char c :: q) (x :: s))
    with (if is_whitespace x then
            match match_here (StarWs :: Char c :: q) s with
            | Some r => Some r
            | None => match_here (Char c :: q) (x :: s)
            end
          else match_here (Char c :: q) (x :: s)).
  simpl skip_ws. destruct (is_whitespace x) eqn:Hx; [|reflexivity].
  rewrite IH. destruct (match_here (Char c :: q) (skip_ws s)); [reflexivity|].
  simpl. destruct (N.eqb_spec x c); [congruence | reflexivity].
Qed.

Lemma match_chars l q s :
  match_here (map Char l ++ q) s =
    if decide (take (length l) s = l)
    then match_here q (drop (length l) s)
    else None.
Proof.
  revert s. induction l as [|c l IH]; intros s.
  - reflexivity.
  - cbn [map app match_here length]. destruct s as [|x s].
    + by rewrite decide_False.
    + cbn [take drop]. destruct (N.eqb_spec x c) as [->|Hne].
      * rewrite IH. destruct (decide (take (length l) s = l)) as [He|Hn].
        -- rewrite decide_True; [done | by rewrite He].
        -- rewrite decide_False; [done | intros He'; apply Hn; by injection He'].
      * rewrite decide_False; [done | intros He'; apply Hne; by injection He'].
Qed.

Lemma match_here_Char c p s :
  match_here (Char c :: p) s =
    match s with
    | x :: s' => if x =? c then match_here p s' else None
    | [] => None
    end.
Proof. reflexivity. Qed.

Lemma match_here_CONTENT_RE s : match_here CONTENT_RE s = match_token s.
Proof.
  pose (tl := [StarWs; Char RBRACE; Char RBRACE]).
  change CONTENT_RE
    with (Char LBRACE :: Char LBRACE :: StarWs :: Char 67
            :: (map Char (lit "ONTENT") ++ tl)).
  unfold match_token. rewrite match_here_Char.
  destruct s as [|a s]; [reflexivity|].
  destruct s as [|b s]; [by destruct (a =? LBRACE)|].
  destruct (a =? LBRACE); [|reflexivity].
  rewrite match_here_Char.
  destruct (b =? LBRACE); [|reflexivity].
  cbn [andb].
  rewrite match_star_char by reflexivity.
  change (Char 67 :: (map Char (lit "ONTENT") ++ tl))
    with (map Char (lit "CONTENT") ++ tl).
  rewrite match_chars. change (length (lit "CONTENT")) with 7%nat.
  destruct (decide (take 7 (skip_ws s) = lit "CONTENT")); [|reflexivity].
  unfold tl. rewrite match_star_char by reflexivity.
  rewrite match_here_Char.
  destruct (skip_ws (drop 7 (skip_ws s))) as [|x r]; [reflexivity|].
  rewrite match_here_Char.
  destruct r as [|y r]; [by destruct (x =? RBRACE)|].
  destruct (x =? RBRACE); [|reflexivity].
  by destruct (y =? RBRACE).
Qed.

Lemma match_token_sound s rest :
  match_token s = Some rest -> exists tok, is_token tok /\ s = tok ++ rest.
Proof.
  unfold match_token. destruct s as [|a [|b s1]]; try done.
  destruct (N.eqb_spec a LBRACE) as [->|]; [|done].
  destruct (N.eqb_spec b LBRACE) as [->|]; [|done].
  cbn [andb]. destruct (skip_ws_split s1) as [ws1 [Hws1 Hs1]].
  destruct (decide _) as [He|]; [|done].
  destruct (skip_ws_split (drop 7 (skip_ws s1))) as [ws2 [Hws2 Hs2]].
  destruct (skip_ws (drop 7 (skip_ws s1))) as [|x [|y r]]; try done.
  destruct (N.eqb_spec x RBRACE) as [->|]; [|done].
  destruct (N.eqb_spec y RBRACE) as [->|]; [|done].
  cbn [andb]. intros [= ->].
  exists (lit "{{" ++ ws1 ++ lit "CONTENT" ++ ws2 ++ lit "}}"). split.
  - by exists ws1, ws2.
  - rewrite Hs1 at 1. rewrite <- (take_drop 7 (skip_ws s1)), He, Hs2.
    by rewrite <- !app_assoc.
Qed.

Lemma match_token_complete tok rest :
  is_token tok -> match_token (tok ++ rest) = Some rest.
Proof.
  intros (ws1 & ws2 & Hws1 & Hws2 & ->).
  rewrite <- !app_assoc. unfold match_token.
  change (lit "{{" ++ ?l) with (LBRACE :: LBRACE :: l).
  cbv beta iota. rewrite !N.eqb_refl. cbn [andb].
  rewrite skip_ws_app by (done || reflexivity).
  rewrite decide_True by reflexivity.
  change (drop 7 (lit "CONTENT" ++ ?l)) with l.
  rewrite skip_ws_app by (done || reflexivity).
  reflexivity.
Qed.

(** The pattern of the source matches at the start of [s] exactly when [s]
    starts with a token, and what it leaves is what follows the token. *)
Lemma match_here_token s rest :
  match_here CONTENT_RE s = Some rest <->
  exists tok, is_token tok /\ s = tok ++ rest.
Proof.
  rewrite match_here_CONTENT_RE. split.
  - apply match_token_sound.
  - intros (tok & Htok & ->). by apply match_token_complete.
Qed.

Lemma token_not_nil tok : is_token tok -> exists x tok', tok = x :: tok'.
Proof. intros (ws1 & ws2 & _ & _ & ->). by eexists _, _. Qed.

(** *** The scan *)

Lemma GetSubstitution_literal matched before after c :
  dollar_free c = true -> GetSubstitution matched before after c = c.
Proof.
  induction c as [|x c IH]; [reflexivity|]. simpl.
  intros [Hx Hc]%andb_prop. apply negb_true_iff in Hx. rewrite Hx.
  by rewrite IH.
Qed.

Lemma replace_scan_skip p c before pre rest :
  replace_scan p c before (length pre) (pre ++ rest) =
  replace_scan p c (before ++ pre) 0 rest.
Proof.
  revert before. induction pre as [|x pre IH]; intros before.
  - by rewrite app_nil_r.
  - simpl. rewrite IH. by rewrite <- app_assoc.
Qed.

Lemma replace_scan_match p c before x m rest :
  match_here p (x :: m ++ rest) = Some rest ->
  replace_scan p c before 0 (x :: m ++ rest) =
  GetSubstitution (x :: m) before rest c
    ++ replace_scan p c (before ++ x :: m) 0 rest.
Proof.
  intros Hm. cbn [replace_scan]. rewrite Hm.
  replace (length (x :: m ++ rest) - length rest)%nat with (S (length m))
    by (simpl; rewrite length_app; lia).
  replace (take (S (length m)) (x :: m ++ rest)) with (x :: m)
    by (simpl; by rewrite take_app_length).
  rewrite replace_scan_skip. by rewrite <- app_assoc.
Qed.

Lemma replace_scan_no_match p c before x s :
  match_here p (x :: s) = None ->
  replace_scan p c before 0 (x :: s) =
  x :: replace_scan p c (before ++ [x]) 0 s.
Proof. intros Hm. cbn [replace_scan]. by rewrite Hm. Qed.

(** *** Counting tokens *)

Lemma match_here_not_lbrace x s :
  x <> LBRACE -> match_here CONTENT_RE (x :: s) = None.
Proof.
  intros Hx. rewrite match_here_CONTENT_RE. unfold match_token.
  destruct s as [|b s]; [done|].
  by destruct (N.eqb_spec x LBRACE).
Qed.

Lemma match_here_lbrace_not_lbrace y s :
  y <> LBRACE -> match_here CONTENT_RE (LBRACE :: y :: s) = None.
Proof.
  intros Hy. rewrite match_here_CONTENT_RE. unfold match_token.
  destruct (N.eqb_spec y LBRACE); [done|]. by rewrite andb_false_r.
Qed.

Lemma count_tokens_no_lbrace l r :
  Forall (fun x => x <> LBRACE) l -> count_tokens (l ++ r) = count_tokens r.
Proof.
  induction 1 as [|x l Hx _ IH]; [reflexivity|].
  cbn [app count_tokens]. by rewrite match_here_not_lbrace.
Qed.

Lemma whitespace_no_lbrace ws :
  whitespace ws -> Forall (fun x => x <> LBRACE) ws.
Proof.
  intros Hws. eapply Forall_impl; [exact Hws|].
  intros x Hx ->. discriminate Hx.
Qed.

(** No token starts inside a token. *)
Lemma count_tokens_token tok r :
  is_token tok -> count_tokens (tok ++ r) = S (count_tokens r).
Proof.
  intros Htok.
  pose proof (match_token_complete tok r Htok) as Hm.
  rewrite <- match_here_CONTENT_RE in Hm.
  destruct Htok as (ws1 & ws2 & Hws1 & Hws2 & ->).
  set (body := ws1 ++ lit "CONTENT" ++ ws2 ++ lit "}}") in *.
  assert (Hbody : Forall (fun x => x <> LBRACE) body).
  { unfold body. repeat apply Forall_app_2;
      try by apply whitespace_no_lbrace.
    - repeat constructor; discriminate.
    - repeat constructor; discriminate. }
  change (lit "{{" ++ body) with (LBRACE :: LBRACE :: body) in *.
  cbn [app count_tokens]. cbn [app] in Hm. rewrite Hm.
  assert (match_here CONTENT_RE (LBRACE :: body ++ r) = None) as ->.
  { destruct body as [|y body'] eqn:Hb.
    - unfold body in Hb. by destruct ws1.
    - apply match_here_lbrace_not_lbrace. by inversion Hbody. }
  by rewrite count_tokens_no_lbrace.
Qed.

(** *** What the renderer does *)

(** Without a token the template is returned as it is, whatever the
    content. *)
Lemma replace_scan_no_token c before t :
  count_tokens t = 0%nat -> replace_scan CONTENT_RE c before 0 t = t.
Proof.
  revert before. induction t as [|x t IH]; intros before; [reflexivity|].
  cbn [count_tokens]. destruct (match_here CONTENT_RE (x :: t)) eqn:Hm; [done|].
  intros Ht. rewrite replace_scan_no_match by done. by rewrite IH.
Qed.

Lemma render_no_token t c : count_tokens t = 0%nat -> render t c = t.
Proof. apply replace_scan_no_token. Qed.

Lemma fill_token f tok s0 rest :
  fill f [] ((tok, s0) :: rest) = f tok ++ fill f s0 rest.
Proof. unfold fill. simpl. by rewrite <- app_assoc. Qed.

Lemma fill_cons f x s0 rest : fill f (x :: s0) rest = x :: fill f s0 rest.
Proof. reflexivity. Qed.

Lemma GetSubstitution_pattern_free matched before after c :
  pattern_free c = true -> GetSubstitution matched before after c = c.
Proof.
  induction c as [|x c IH]; [reflexivity|].
  cbn [pattern_free GetSubstitution].
  destruct (x =? DOLLAR); [|by intros ->%IH].
  destruct c as [|d r]; [done|].
  unfold is_pattern_char.
  intros [Hd Hc]%andb_prop. apply negb_true_iff in Hd.
  apply orb_false_elim in Hd as [Hd Hd4].
  apply orb_false_elim in Hd as [Hd Hd3].
  apply orb_false_elim in Hd as [Hd1 Hd2].
  rewrite Hd1, Hd2, Hd3, Hd4. by rewrite (IH Hc).
Qed.

Lemma replace_scan_cut c n :
  (forall matched before after,
      GetSubstitution matched before after c = c) ->
  forall s before, (length s <= n)%nat ->
  exists s0 rest,
    s = fill id s0 rest /\
    replace_scan CONTENT_RE c before 0 s = fill (fun _ => c) s0 rest /\
    Forall is_token rest.*1 /\
    length rest = count_tokens s /\
    count_tokens s0 = 0%nat /\
    Forall (fun seg => count_tokens seg = 0%nat) rest.*2.
Proof.
  intros Hc. induction n as [|n IH]; intros s before Hn.
  { destruct s; [|simpl in Hn; lia].
    exists [], []. by repeat split. }
  destruct s as [|x s].
  { exists [], []. by repeat split. }
  destruct (match_here CONTENT_RE (x :: s)) as [r|] eqn:Hm.
  - destruct (proj1 (match_here_token _ _) Hm) as (tok & Htok & Hs).
    destruct (token_not_nil _ Htok) as (y & m & ->).
    injection Hs as <- ->.
    destruct (IH r (before ++ x :: m)) as (s0 & rest & Hr & Hrep & Htoks & Hlen & Hs0 & Hsegs).
    { simpl in Hn. rewrite length_app in Hn. lia. }
    exists [], ((x :: m, s0) :: rest). repeat split.
    + by rewrite fill_token, <- Hr.
    + rewrite replace_scan_match by done.
      rewrite Hc.
      by rewrite fill_token, <- Hrep.
    + by constructor.
    + change (x :: m ++ r) with ((x :: m) ++ r).
      rewrite count_tokens_token by done. simpl. by rewrite Hlen.
    + by constructor.
  - destruct (IH s (before ++ [x])) as (s0 & rest & Hr & Hrep & Htoks & Hlen & Hs0 & Hsegs).
    { simpl in Hn. lia. }
    exists (x :: s0), rest. repeat split; try done.
    + by rewrite fill_cons, <- Hr.
    + rewrite replace_scan_no_match by done.
      by rewrite fill_cons, <- Hrep.
    + cbn [count_tokens]. by rewrite Hm.
    + cbn [count_tokens]. rewrite Hs0.
      destruct (match_here CONTENT_RE (x :: s0)) as [r'|] eqn:Hm'; [|done].
      exfalso. destruct (proj1 (match_here_token _ _) Hm') as (tok & Htok & Hs).
      assert (match_here CONTENT_RE (x :: s)
              = Some (r' ++ flat_map (fun p => id p.1 ++ p.2) rest)) as Hm2.
      { apply match_here_token. exists tok. split; [done|].
        rewrite Hr. unfold fill. by rewrite app_assoc, <- Hs. }
      congruence.
Qed.

(** ** The renderer *)

(** C4, as amended.  The renderer is a total function of the template and
    the content.  A template without a token is returned as it is, whatever
    the content.  For a content in which no dollar sign is followed by a
    dollar sign, an ampersand, a backtick or an apostrophe, every token of
    the template is replaced by the content, verbatim: the template is cut
    at its tokens into pieces without a token, the number of cuts is the
    number of tokens, and the result is the same pieces with the content in
    the place of each token. *)
Theorem render_replaces_tokens (t c : jsstring) :
  (count_tokens t = 0%nat -> render t c = t) /\
  (pattern_free c = true ->
   exists s0 rest,
     t = fill id s0 rest /\
     render t c = fill (fun _ => c) s0 rest /\
     Forall is_token rest.*1 /\
     length rest = count_tokens t /\
     count_tokens s0 = 0%nat /\
     Forall (fun seg => count_tokens seg = 0%nat) rest.*2).
Proof.
  split; [apply render_no_token|]. intros Hc.
  apply (replace_scan_cut c (length t)); [|done].
  intros m b a. by apply GetSubstitution_pattern_free.
Qed.

Lemma render_replaces_tokens_witness :
  (count_tokens (lit "no token here") = 0%nat /\
   render (lit "no token here") (lit "a$$b") = lit "no token here") /\
  (pattern_free (lit "cost: $5 and $x$") = true /\
   exists s0 rest,
     lit "Fix {{ CONTENT }} and {{CONTENT}}" = fill id s0 rest /\
     render (lit "Fix {{ CONTENT }} and {{CONTENT}}") (lit "cost: $5 and $x$")
       = fill (fun _ => lit "cost: $5 and $x$") s0 rest /\
     Forall is_token rest.*1 /\
     length rest = count_tokens (lit "Fix {{ CONTENT }} and {{CONTENT}}") /\
     count_tokens s0 = 0%nat /\
     Forall (fun seg => count_tokens seg = 0%nat) rest.*2).
Proof.
  split.
  - split; [reflexivity|].
    apply (proj1 (render_replaces_tokens (lit "no token here") (lit "a$$b"))).
    reflexivity.
  - split; [reflexivity|].
    apply (proj2 (render_replaces_tokens
                    (lit "Fix {{ CONTENT }} and {{CONTENT}}")
                    (lit "cost: $5 and $x$"))).
    reflexivity.
Defined.

(** The renderer on the template of the scenario. *)
Example render_two_tokens :
  render (lit "Fix {{ CONTENT }} and {{CONTENT}}") (lit "x = 1;")
    = lit "Fix x = 1; and x = 1;".
Proof. reflexivity. Qed.

(** A dollar sign in the content is read as a substitution pattern. *)
Example render_dollar_patterns :
  render (lit "<{{CONTENT}}>") (lit "a$$b") = lit "<a$b>" /\
  render (lit "<{{CONTENT}}>") (lit "[$&]") = lit "<[{{CONTENT}}]>" /\
  render (lit "<{{CONTENT}}>") (lit "[$`]") = lit "<[<]>" /\
  render (lit "<{{CONTENT}}>") (lit "[$']") = lit "<[>]>" /\
  render (lit "<{{CONTENT}}>") (lit "$1") = lit "<$1>".
Proof. repeat split. Qed.

(** The empty content can leave a token behind. *)
Example render_joins_a_token :
  count_tokens (lit "{{{{CONTENT}}CONTENT}}") = 1%nat /\
  render (lit "{{{{CONTENT}}CONTENT}}") [] = lit "{{CONTENT}}".
Proof. split; reflexivity. Qed.

(** C4, as it is stated, fails.  A template with one token, rendered with a
    content without a token, gives a text in which the content occurs
    twice; and with the content [$&] the token is replaced by itself, so
    that the result still holds one token and does not hold the content. *)
Lemma render_count_counterexample :
  (count_tokens (lit "ab{{CONTENT}}") = 1%nat /\
   count_tokens (lit "ab") = 0%nat /\
   render (lit "ab{{CONTENT}}") (lit "ab") = lit "abab" /\
   occurrences (lit "ab") (render (lit "ab{{CONTENT}}") (lit "ab")) = 2%nat) /\
  (count_tokens (lit "{{CONTENT}}") = 1%nat /\
   count_tokens (lit "$&") = 0%nat /\
   render (lit "{{CONTENT}}") (lit "$&") = lit "{{CONTENT}}" /\
   occurrences (lit "$&") (render (lit "{{CONTENT}}") (lit "$&")) = 0%nat /\
   count_tokens (render (lit "{{CONTENT}}") (lit "$&")) = 1%nat).
Proof. repeat split. Qed.

(** ** The driver *)

Lemma reads_app tr1 tr2 : reads (tr1 ++ tr2) = reads tr1 ++ reads tr2.
Proof. apply omap_app. Qed.
Lemma requests_app tr1 tr2 : requests (tr1 ++ tr2) = requests tr1 ++ requests tr2.
Proof. apply omap_app. Qed.
Lemma writes_app tr1 tr2 : writes (tr1 ++ tr2) = writes tr1 ++ writes tr2.
Proof. apply omap_app. Qed.
Lemma delays_app tr1 tr2 : delays (tr1 ++ tr2) = delays tr1 ++ delays tr2.
Proof. apply omap_app. Qed.
Lemma processed_app tr1 tr2 :
  processed (tr1 ++ tr2) = processed tr1 ++ processed tr2.
Proof. apply omap_app. Qed.
Lemma skipped_app tr1 tr2 : skipped (tr1 ++ tr2) = skipped tr1 ++ skipped tr2.
Proof. apply omap_app. Qed.
Lemma printed_app tr1 tr2 : printed (tr1 ++ tr2) = printed tr1 ++ printed tr2.
Proof. apply omap_app. Qed.

Ltac unfold_io :=
  unfold loop_body, processFile, fast_glob, chat_completions_create,
    readFile, writeFile, sleep, console_log, console_error, emit,
    process_exit, bind, ret.

Section Driver.

Context (env : environment) (cfg : config).

(** [processFile] returns the text of the outcome, or [null]; it reads the
    file, sends at most one request and leaves the file system alone. *)
Lemma processFile_transform f st :
  exists st' tr,
    processFile env cfg f st = (Return (returned_text (transform env cfg st f)), st', tr) /\
    st_fs st' = st_fs st /\
    reads tr = [f] /\ (length (requests tr) <= 1)%nat /\ writes tr = [] /\
    delays tr = [] /\ processed tr = [] /\ skipped tr = [] /\ printed tr = [].
Proof.
  unfold transform, completion_request. unfold_io.
  destruct (fs_readFile (st_fs st) f) as [content|err]; simpl.
  - destruct (create env _ _) as [[[[|[[text|]] cs]|]]|err]; simpl;
      eexists _, _; (split; [reflexivity|]); simpl; repeat split; lia.
  - eexists _, _; (split; [reflexivity|]); simpl; repeat split; lia.
Qed.

(** One turn of the loop when [dryRun] is off: it returns, so that the loop
    goes on; the target is read once; it is either reported as skipped,
    with nothing written and no delay, or written once, with one delay. *)
Lemma loop_body_normal f st :
  dryRun cfg = false ->
  exists st' tr,
    loop_body env cfg f st = (Return tt, st', tr) /\
    reads tr = [f] /\ processed tr = [relative env f] /\
    (length (requests tr) <= 1)%nat /\ printed tr = [] /\
    match transform env cfg st f with
    | Success text =>
        skipped tr = [] /\ writes tr = [(f, text)] /\
        delays tr = [intervalMilis cfg] /\
        st_fs st' = match fs_writeFile (st_fs st) f text with
                    | Ok fs' => fs'
                    | Throws _ => st_fs st
                    end
    | _ =>
        skipped tr = [relative env f] /\ writes tr = [] /\
        delays tr = [] /\ st_fs st' = st_fs st
    end.
Proof.
  intros Hdry.
  destruct (processFile_transform f st)
    as (st1 & tr1 & Hp & Hfs & Hr & Hq & Hw & Hd & Hpr & Hsk & Hout).
  unfold loop_body, bind, console_log, console_error, emit. rewrite Hp, Hdry.
  destruct (transform env cfg st f) as [text| | | |];
    try (eexists _, _; split; [reflexivity|];
         rewrite ?reads_app, ?requests_app, ?writes_app, ?delays_app,
           ?processed_app, ?skipped_app, ?printed_app, ?length_app,
           ?Hr, ?Hw, ?Hd, ?Hpr, ?Hsk, ?Hout;
         simpl; repeat split; try done; lia).
  unfold writeFile, sleep, emit, bind, returned_text. cbv beta iota.
  rewrite Hfs.
  destruct (fs_writeFile (st_fs st) f text) as [fs'|err];
    eexists _, _; (split; [reflexivity|]);
    rewrite ?reads_app, ?requests_app, ?writes_app, ?delays_app,
      ?processed_app, ?skipped_app, ?printed_app, ?length_app,
      ?Hr, ?Hw, ?Hd, ?Hpr, ?Hsk, ?Hout;
    simpl; repeat split; try done; lia.
Qed.

(** One turn of the loop when [dryRun] is on: it ends the process, with
    code 0 after printing the text, or with code 1 after reporting the
    target as skipped; nothing is written. *)
Lemma loop_body_dry f st :
  dryRun cfg = true ->
  exists code st' tr,
    loop_body env cfg f st = (ProcessExit code, st', tr) /\
    st_fs st' = st_fs st /\
    reads tr = [f] /\ processed tr = [relative env f] /\
    (length (requests tr) <= 1)%nat /\ writes tr = [] /\ delays tr = [] /\
    match transform env cfg st f with
    | Success text => code = 0%Z /\ printed tr = [text] /\ skipped tr = []
    | _ => code = 1%Z /\ printed tr = [] /\ skipped tr = [relative env f]
    end.
Proof.
  intros Hdry.
  destruct (processFile_transform f st)
    as (st1 & tr1 & Hp & Hfs & Hr & Hq & Hw & Hd & Hpr & Hsk & Hout).
  unfold loop_body, bind, console_log, console_error, emit, process_exit.
  rewrite Hp, Hdry.
  destruct (transform env cfg st f) as [text| | | |];
    eexists _, _, _; (split; [reflexivity|]);
    rewrite ?reads_app, ?requests_app, ?writes_app, ?delays_app,
      ?processed_app, ?skipped_app, ?printed_app, ?length_app,
      ?Hr, ?Hw, ?Hd, ?Hpr, ?Hsk, ?Hout;
    simpl; repeat split; try done; lia.
Qed.

End Driver.

Section Run.

Context (env : environment) (cfg : config).

Lemma for_of_cons {A} (body : A -> io unit) x l st :
  for_of (x :: l) body st =
    match body x st with
    | (Return _, st', tr) =>
        match for_of l body st' with
        | (r, st'', tr') => (r, st'', tr ++ tr')
        end
    | (ProcessExit code, st', tr) => (ProcessExit code, st', tr)
    end.
Proof. reflexivity. Qed.

(** The loop when [dryRun] is off: it runs to its end; every target is
    read, in order; each is either reported as skipped or written; and a
    delay follows every write. *)
Lemma for_of_normal l st :
  dryRun cfg = false ->
  exists st' tr sk,
    for_of l (loop_body env cfg) st = (Return tt, st', tr) /\
    reads tr = l /\ processed tr = map (relative env) l /\ printed tr = [] /\
    delays tr = replicate (length (writes tr)) (intervalMilis cfg) /\
    skipped tr = map (relative env) sk /\
    sk ++ (writes tr).*1 ≡ₚ l.
Proof.
  intros Hdry. revert st. induction l as [|f l IH]; intros st.
  { exists st, [], []. by repeat split. }
  destruct (loop_body_normal env cfg f st Hdry)
    as (st1 & tr1 & Hb & Hr1 & Hp1 & _ & Ho1 & Hcase).
  destruct (IH st1) as (st2 & tr2 & sk & Hl & Hr2 & Hp2 & Ho2 & Hd2 & Hs2 & Hperm).
  rewrite for_of_cons, Hb, Hl.
  destruct (transform env cfg st f) as [text| | | |].
  1: destruct Hcase as (Hs1 & Hw1 & Hd1 & _); exists st2, (tr1 ++ tr2), sk.
  2-5: destruct Hcase as (Hs1 & Hw1 & Hd1 & _);
       exists st2, (tr1 ++ tr2), (f :: sk).
  all: rewrite reads_app, processed_app, printed_app, delays_app,
         skipped_app, writes_app, Hr1, Hr2, Hp1, Hp2, Ho1, Ho2, Hd1, Hd2,
         Hs1, Hs2, Hw1.
  all: repeat split; try done.
  - simpl. by rewrite <- Permutation_middle, Hperm.
  - simpl. by rewrite Hperm.
  - simpl. by rewrite Hperm.
  - simpl. by rewrite Hperm.
  - simpl. by rewrite Hperm.
Qed.

(** [main], once the matcher has answered. *)
Lemma main_glob_throws st err :
  glob env (patterns cfg) (ignore cfg) = Throws err ->
  main env cfg st =
    (ProcessExit 1, st,
     [EGlob (patterns cfg) (ignore cfg); EError (GlobbingError err)]).
Proof. intros Hg. unfold main, fast_glob, bind. by rewrite Hg. Qed.

Lemma main_no_match st :
  glob env (patterns cfg) (ignore cfg) = Ok [] ->
  main env cfg st =
    (ProcessExit 0, st,
     [EGlob (patterns cfg) (ignore cfg); ELog NoFilesMatched]).
Proof. intros Hg. unfold main, fast_glob, bind. by rewrite Hg. Qed.

Lemma main_no_key st f rest :
  glob env (patterns cfg) (ignore cfg) = Ok (f :: rest) ->
  falsy (OPENAI_API_KEY env) = true ->
  main env cfg st =
    (ProcessExit 1, st,
     [EGlob (patterns cfg) (ignore cfg); EError ApiKeyNotSet]).
Proof. intros Hg Hk. unfold main, fast_glob, bind. by rewrite Hg, Hk. Qed.

Lemma main_loop st f rest :
  glob env (patterns cfg) (ignore cfg) = Ok (f :: rest) ->
  falsy (OPENAI_API_KEY env) = false ->
  main env cfg st =
    match for_of (f :: rest) (loop_body env cfg) st with
    | (Return _, st', tr) =>
        (Return tt, st',
         [EGlob (patterns cfg) (ignore cfg);
          ELog (Found (length (f :: rest)) (dryRun cfg))]
           ++ tr ++ [ELog AllDone])
    | (ProcessExit code, st', tr) =>
        (ProcessExit code, st',
         [EGlob (patterns cfg) (ignore cfg);
          ELog (Found (length (f :: rest)) (dryRun cfg))] ++ tr)
    end.
Proof.
  intros Hg Hk. unfold main, fast_glob, bind. rewrite Hg, Hk.
  unfold console_log, emit, ret. cbn [length]. rewrite decide_False by done.
  destruct (for_of (f :: rest) (loop_body env cfg) st) as [[[[]|code] st'] tr];
    simpl; by rewrite ?app_nil_r.
Qed.

End Run.

(** ** The properties of the specification *)

Section Claims.

Context (env : environment) (cfg : config).

(** C7.  Zero-match short-circuit: when the patterns match no file the run
    ends with exit code 0, without a request, a read or a write, and with
    the file system as it was; the credential is not even looked at. *)
Theorem zero_match_short_circuit (fs : gmap path file) :
  glob env (patterns cfg) (ignore cfg) = Ok [] ->
  exists r tr,
    run env cfg fs = (r, fs, tr) /\
    exit_code r = 0%Z /\
    requests tr = [] /\ reads tr = [] /\ writes tr = [].
Proof.
  intros Hg. unfold run. rewrite (main_no_match env cfg _ Hg).
  by eexists _, _.
Qed.

(** C2, as amended.  A missing credential is detected after the pattern
    resolution and before any file is processed: such a run resolves the
    patterns once, sends no request, reads and writes no file, leaves the
    file system as it was and, when at least one file matched, ends with
    exit code 1. *)
Theorem missing_credential_aborts (fs : gmap path file) :
  falsy (OPENAI_API_KEY env) = true ->
  exists r tr,
    run env cfg fs = (r, fs, tr) /\
    globs tr = 1%nat /\
    requests tr = [] /\ reads tr = [] /\ writes tr = [] /\
    (forall f rest,
        glob env (patterns cfg) (ignore cfg) = Ok (f :: rest) ->
        exit_code r = 1%Z).
Proof.
  intros Hk. unfold run.
  destruct (glob env (patterns cfg) (ignore cfg)) as [[|f rest]|err] eqn:Hg.
  - rewrite (main_no_match env cfg _ Hg). eexists _, _. by repeat split.
  - rewrite (main_no_key env cfg _ _ _ Hg Hk). eexists _, _. by repeat split.
  - rewrite (main_glob_throws env cfg _ _ Hg). eexists _, _. by repeat split.
Qed.

(** C3.  Dry-run single-file invariant: with at least one matched file and
    [dryRun] on, the run reads the first target and no other, sends at most
    one request, writes nothing and leaves the file system as it was; it
    ends the process in the first turn of the loop, and when the transform
    of that file succeeds it does so with exit code 0 after printing the
    returned text. *)
Theorem dry_run_single_file (fs : gmap path file) (f : path) (rest : list path) :
  dryRun cfg = true ->
  falsy (OPENAI_API_KEY env) = false ->
  glob env (patterns cfg) (ignore cfg) = Ok (f :: rest) ->
  exists code tr,
    run env cfg fs = (ProcessExit code, fs, tr) /\
    reads tr = [f] /\ processed tr = [relative env f] /\
    (length (requests tr) <= 1)%nat /\ writes tr = [] /\
    (forall text,
        transform env cfg (State fs 0) f = Success text ->
        code = 0%Z /\ printed tr = [text] /\ skipped tr = []).
Proof.
  intros Hdry Hk Hg. unfold run. rewrite (main_loop env cfg _ _ _ Hg Hk).
  rewrite for_of_cons.
  destruct (loop_body_dry env cfg f (State fs 0) Hdry)
    as (code & st' & tr & Hb & Hfs & Hr & Hp & Hq & Hw & Hd & Hcase).
  rewrite Hb. simpl in Hfs. rewrite Hfs.
  exists code, ([EGlob (patterns cfg) (ignore cfg);
                 ELog (Found (length (f :: rest)) (dryRun cfg))] ++ tr).
  rewrite reads_app, processed_app, requests_app, writes_app, printed_app,
    skipped_app, Hr, Hp, Hw.
  split; [reflexivity|]. do 4 (split; [done|]).
  intros text Ht. rewrite Ht in Hcase. by destruct Hcase as (-> & -> & ->).
Qed.

(** C6.  With [dryRun] on, a first target whose transform fails (the file
    cannot be read, the request fails, the response has no choice, or its
    text is [null]) ends the run with exit code 1: the target is reported
    as skipped and no later target is read. *)
Theorem dry_run_failure_aborts (fs : gmap path file) (f : path) (rest : list path) :
  dryRun cfg = true ->
  falsy (OPENAI_API_KEY env) = false ->
  glob env (patterns cfg) (ignore cfg) = Ok (f :: rest) ->
  returned_text (transform env cfg (State fs 0) f) = None ->
  exists r tr,
    run env cfg fs = (r, fs, tr) /\
    exit_code r = 1%Z /\
    reads tr = [f] /\ skipped tr = [relative env f] /\
    printed tr = [] /\ writes tr = [].
Proof.
  intros Hdry Hk Hg Hfail. unfold run. rewrite (main_loop env cfg _ _ _ Hg Hk).
  rewrite for_of_cons.
  destruct (loop_body_dry env cfg f (State fs 0) Hdry)
    as (code & st' & tr & Hb & Hfs & Hr & Hp & Hq & Hw & Hd & Hcase).
  rewrite Hb. simpl in Hfs. rewrite Hfs.
  eexists _, _. split; [reflexivity|].
  rewrite reads_app, skipped_app, printed_app, writes_app, Hr, Hw.
  destruct (transform env cfg (State fs 0) f); try done;
    by destruct Hcase as (-> & -> & ->).
Qed.

(** C5.  Skip-does-not-halt: with [dryRun] off, the run ends with exit
    code 0 and has read every matched file, in the order of the match,
    whichever of them failed and were skipped. *)
Theorem skip_does_not_halt (fs : gmap path file) (entries : list path) :
  dryRun cfg = false ->
  falsy (OPENAI_API_KEY env) = false ->
  glob env (patterns cfg) (ignore cfg) = Ok entries ->
  exists r fs' tr,
    run env cfg fs = (r, fs', tr) /\
    exit_code r = 0%Z /\
    reads tr = entries /\
    processed tr = map (relative env) entries.
Proof.
  intros Hdry Hk Hg. unfold run. destruct entries as [|f rest].
  { rewrite (main_no_match env cfg _ Hg). by eexists _, _, _. }
  rewrite (main_loop env cfg _ _ _ Hg Hk).
  destruct (for_of_normal env cfg (f :: rest) (State fs 0) Hdry)
    as (st' & tr & sk & Hl & Hr & Hp & _).
  rewrite Hl. eexists _, _, _. split; [reflexivity|].
  rewrite !reads_app, !processed_app, Hr, Hp. simpl.
  by rewrite !app_nil_r.
Qed.

Lemma fs_writeFile_ok (fs fs' : gmap path file) f text :
  fs_writeFile fs f text = Ok fs' ->
  file_data <$> fs' !! f = Some (toWellFormed text) /\
  (forall q, q <> f -> fs' !! q = fs !! q).
Proof.
  unfold fs_writeFile. destruct (fs !! f) as [old|] eqn:Hf.
  - destruct (file_writable old); [|done]. intros [= <-]. split.
    + by rewrite lookup_insert_eq.
    + intros q Hq. by rewrite lookup_insert_ne.
  - intros [= <-]. split.
    + by rewrite lookup_insert_eq.
    + intros q Hq. by rewrite lookup_insert_ne.
Qed.



(** C10.  When the response has a first choice, the turn of the loop for
    the file follows the content of that choice: a [null] content is
    handled as a failed transform (the file is reported as skipped, nothing
    is written, the file system is as before, and with [dryRun] on the
    process ends with code 1); a file is written only with a text that was
    returned, and never when [dryRun] is on. *)
Theorem null_content_is_skipped (f : path) (st : state) (content : jsstring)
    (c : option jsstring) (cs : list choice) :
  fs_readFile (st_fs st) f = Ok content ->
  create env (st_requests st) (completion_request env cfg content)
    = Ok (Response (Some (Choice c :: cs))) ->
  exists r st' tr,
    loop_body env cfg f st = (r, st', tr) /\
    match c with
    | None =>
        skipped tr = [relative env f] /\ writes tr = [] /\
        st_fs st' = st_fs st /\
        r = (if dryRun cfg then ProcessExit 1 else Return tt)
    | Some text =>
        skipped tr = [] /\
        writes tr = (if dryRun cfg then [] else [(f, text)])
    end.
Proof.
  intros Hread Hcreate.
  assert (transform env cfg st f
          = match c with Some text => Success text | None => NullContent end)
    as Ht.
  { unfold transform. by rewrite Hread, Hcreate. }
  destruct (dryRun cfg) eqn:Hdry.
  - destruct (loop_body_dry env cfg f st Hdry)
      as (code & st' & tr & Hb & Hfs & _ & _ & _ & Hw & _ & Hcase).
    rewrite Ht in Hcase. exists (ProcessExit code), st', tr.
    split; [done|]. destruct c; destruct Hcase as (-> & _ & ->); by repeat split.
  - destruct (loop_body_normal env cfg f st Hdry)
      as (st' & tr & Hb & _ & _ & _ & _ & Hcase).
    rewrite Ht in Hcase. exists (Return tt), st', tr.
    split; [done|]. destruct c; destruct Hcase as (-> & -> & _ & Hfs);
      by repeat split.
Qed.

(** With [dryRun] off there is one delay for every write, the last one
    included. *)
Lemma delay_follows_every_write (fs : gmap path file) (f : path)
    (rest : list path) :
  dryRun cfg = false ->
  falsy (OPENAI_API_KEY env) = false ->
  glob env (patterns cfg) (ignore cfg) = Ok (f :: rest) ->
  exists fs' tr,
    run env cfg fs = (Return tt, fs', tr) /\
    delays tr = replicate (length (writes tr)) (intervalMilis cfg).
Proof.
  intros Hdry Hk Hg. unfold run. rewrite (main_loop env cfg _ _ _ Hg Hk).
  destruct (for_of_normal env cfg (f :: rest) (State fs 0) Hdry)
    as (st' & tr & sk & Hl & _ & _ & _ & Hd & _).
  rewrite Hl. eexists _, _. split; [reflexivity|].
  rewrite !delays_app, !writes_app, Hd. simpl. by rewrite !app_nil_r.
Qed.

(** With [dryRun] off, the loop changes no file but those it writes. *)
Lemma for_of_normal_untouched (l : list path) :
  dryRun cfg = false ->
  forall st st' tr,
    for_of l (loop_body env cfg) st = (Return tt, st', tr) ->
    forall q, q ∉ (writes tr).*1 -> st_fs st' !! q = st_fs st !! q.
Proof.
  intros Hdry. induction l as [|f l IH]; intros st st' tr.
  { by intros [= <- <-]. }
  destruct (loop_body_normal env cfg f st Hdry)
    as (st1 & tr1 & Hb & _ & _ & _ & _ & Hcase).
  destruct (for_of_normal env cfg l st1 Hdry) as (st2 & tr2 & sk & Hl & _).
  rewrite for_of_cons, Hb, Hl. intros [= <- <-] q.
  rewrite writes_app, fmap_app, not_elem_of_app. intros [Hq1 Hq2].
  rewrite (IH _ _ _ Hl q Hq2).
  destruct (transform env cfg st f) as [text| | | |];
    try by destruct Hcase as (_ & _ & _ & ->).
  destruct Hcase as (_ & Hw & _ & ->). rewrite Hw in Hq1.
  destruct (fs_writeFile (st_fs st) f text) as [fs1|err] eqn:Hwf; [|done].
  apply (fs_writeFile_ok _ _ _ _ Hwf). intros ->. apply Hq1. by left.
Qed.

(** Three lists that together have no element twice share none. *)
Lemma NoDup_three {A} (a b c : list A) (x : A) :
  NoDup (a ++ b ++ c) -> x ∈ a ++ b ++ c ->
  (x ∈ a) /\ (x ∉ b) /\ (x ∉ c) \/
  (x ∈ b) /\ (x ∉ a) /\ (x ∉ c) \/
  (x ∈ c) /\ (x ∉ a) /\ (x ∉ b).
Proof.
  intros (Ha & Hab & (Hb & Hbc & Hc)%NoDup_app)%NoDup_app.
  intros [Hx|[Hx|Hx]%elem_of_app]%elem_of_app.
  - left. split; [done|]. pose proof (Hab x Hx) as H.
    rewrite not_elem_of_app in H. tauto.
  - right; left. split; [done|]. split; [|by apply Hbc].
    intros Hxa. apply (Hab x Hxa), elem_of_app. by left.
  - right; right. split; [done|]. split.
    + intros Hxa. apply (Hab x Hxa), elem_of_app. by right.
    + intros Hxb. by apply (Hbc x Hxb).
Qed.

(** C9.  One outcome for each target.  When the matcher returns each file
    once and the names printed for them differ, the targets attempted are
    all the matched files, or the first of them when [dryRun] is on (none
    without a credential); each is announced and read exactly once; and
    the targets attempted fall into three classes without a file in
    common: those reported as skipped, those written, and the one whose
    text is printed by a dry run.  So every file attempted is exactly one
    of skipped, written and left untouched after a preview, and never both
    skipped and written; and a file that is not written is on disk what it
    was. *)
Theorem one_outcome_per_target (fs : gmap path file) (entries : list path) :
  glob env (patterns cfg) (ignore cfg) = Ok entries ->
  NoDup entries ->
  (forall p q, p ∈ entries -> q ∈ entries ->
               relative env p = relative env q -> p = q) ->
  exists r fs' tr sk pv,
    run env cfg fs = (r, fs', tr) /\
    reads tr = (if falsy (OPENAI_API_KEY env) then []
                else if dryRun cfg then take 1 entries else entries) /\
    NoDup (reads tr) /\
    processed tr = map (relative env) (reads tr) /\
    skipped tr = map (relative env) sk /\
    length (printed tr) = length pv /\
    (dryRun cfg = false -> pv = []) /\
    (dryRun cfg = true -> writes tr = []) /\
    sk ++ (writes tr).*1 ++ pv ≡ₚ reads tr /\
    (forall f, f ∈ reads tr ->
       (f ∈ sk) /\ (f ∉ (writes tr).*1) /\ (f ∉ pv) \/
       (f ∈ (writes tr).*1) /\ (f ∉ sk) /\ (f ∉ pv) \/
       (f ∈ pv) /\ (f ∉ sk) /\ (f ∉ (writes tr).*1)) /\
    (forall f, ~ (relative env f ∈ skipped tr /\ f ∈ (writes tr).*1)) /\
    (forall q, (q ∉ (writes tr).*1) -> fs' !! q = fs !! q).
Proof.
  intros Hg Hnd Hinj.
  (* what is left to show once the lists are known *)
  assert (Hfinish : forall (r : outcome unit) fs' tr sk pv att,
    run env cfg fs = (r, fs', tr) ->
    reads tr = att -> att `sublist_of` entries ->
    processed tr = map (relative env) att ->
    skipped tr = map (relative env) sk ->
    length (printed tr) = length pv ->
    (dryRun cfg = false -> pv = []) ->
    (dryRun cfg = true -> writes tr = []) ->
    sk ++ (writes tr).*1 ++ pv ≡ₚ att ->
    (forall q, (q ∉ (writes tr).*1) -> fs' !! q = fs !! q) ->
    att = (if falsy (OPENAI_API_KEY env) then []
           else if dryRun cfg then take 1 entries else entries) ->
    exists r fs' tr sk pv,
      run env cfg fs = (r, fs', tr) /\
      reads tr = (if falsy (OPENAI_API_KEY env) then []
                  else if dryRun cfg then take 1 entries else entries) /\
      NoDup (reads tr) /\
      processed tr = map (relative env) (reads tr) /\
      skipped tr = map (relative env) sk /\
      length (printed tr) = length pv /\
      (dryRun cfg = false -> pv = []) /\
      (dryRun cfg = true -> writes tr = []) /\
      sk ++ (writes tr).*1 ++ pv ≡ₚ reads tr /\
      (forall f, f ∈ reads tr ->
         (f ∈ sk) /\ (f ∉ (writes tr).*1) /\ (f ∉ pv) \/
         (f ∈ (writes tr).*1) /\ (f ∉ sk) /\ (f ∉ pv) \/
         (f ∈ pv) /\ (f ∉ sk) /\ (f ∉ (writes tr).*1)) /\
      (forall f, ~ (relative env f ∈ skipped tr /\ f ∈ (writes tr).*1)) /\
      (forall q, (q ∉ (writes tr).*1) -> fs' !! q = fs !! q)).
  { intros r fs' tr sk pv att Hrun Hr Hsub Hp Hs Hpr Hpv Hwr Hperm Hfs Hatt.
    assert (Hnda : NoDup att) by (by eapply sublist_NoDup).
    assert (Hnd3 : NoDup (sk ++ (writes tr).*1 ++ pv)) by by rewrite Hperm.
    exists r, fs', tr, sk, pv. rewrite Hr.
    do 9 (split; [done|]). split; [|split; [|done]].
    - intros f Hf. apply NoDup_three; [done | by rewrite Hperm].
    - intros f [Hfsk Hfw]. rewrite Hs in Hfsk.
      apply list_elem_of_fmap in Hfsk as (g & Hrel & Hgs).
      assert (Hin : forall x, x ∈ sk ++ (writes tr).*1 ++ pv -> x ∈ entries).
      { intros x Hx. rewrite Hperm in Hx. by eapply elem_of_sublist. }
      assert (f = g) as ->.
      { apply Hinj; [| |done]; apply Hin; rewrite !elem_of_app; auto. }
      apply NoDup_app in Hnd3 as (_ & Hdisj & _).
      apply (Hdisj g Hgs), elem_of_app. by left. }
  unfold run in *.
  destruct entries as [|f rest].
  { rewrite (main_no_match env cfg _ Hg) in *.
    eapply (Hfinish _ _ _ [] [] []); try done.
    by destruct (falsy _), (dryRun cfg). }
  destruct (falsy (OPENAI_API_KEY env)) eqn:Hk.
  { rewrite (main_no_key env cfg _ _ _ Hg Hk) in *.
    eapply (Hfinish _ _ _ [] [] []); try done. apply sublist_nil_l. }
  rewrite (main_loop env cfg _ _ _ Hg Hk) in *.
  destruct (dryRun cfg) eqn:Hdry.
  - rewrite for_of_cons in *.
    destruct (loop_body_dry env cfg f (State fs 0) Hdry)
      as (code & st' & tr & Hb & Hfs & Hr & Hp & Hq & Hw & Hd & Hcase).
    rewrite Hb in *. cbn [st_fs] in Hfs.
    assert (exists sk pv,
              skipped tr = map (relative env) sk /\
              length (printed tr) = length pv /\
              sk ++ pv ≡ₚ [f]) as (sk & pv & Hs & Hpr & Hperm).
    { destruct (transform env cfg (State fs 0) f) as [text| | | |];
        destruct Hcase as (_ & -> & ->);
        [by exists [], [f] | by exists [f], [] ..]. }
    eapply (Hfinish _ _ _ sk pv [f]); [reflexivity|..].
    + by rewrite reads_app, Hr.
    + by apply sublist_skip, sublist_nil_l.
    + by rewrite processed_app, Hp.
    + by rewrite skipped_app, Hs.
    + rewrite printed_app. exact Hpr.
    + done.
    + intros _. by rewrite writes_app, Hw.
    + by rewrite writes_app, Hw.
    + intros q _. by rewrite Hfs.
    + done.
  - destruct (for_of_normal env cfg (f :: rest) (State fs 0) Hdry)
      as (st' & tr & sk & Hl & Hr & Hp & Hpr & _ & Hs & Hperm).
    pose proof (for_of_normal_untouched _ Hdry _ _ _ Hl) as Hfs.
    rewrite Hl in *.
    eapply (Hfinish _ _ _ sk [] (f :: rest)); [reflexivity|..].
    + rewrite !reads_app, Hr. simpl. by rewrite app_nil_r.
    + done.
    + rewrite !processed_app, Hp. simpl. by rewrite app_nil_r.
    + rewrite !skipped_app, Hs. simpl. by rewrite app_nil_r.
    + rewrite !printed_app, Hpr. done.
    + done.
    + done.
    + rewrite !writes_app. simpl. by rewrite !app_nil_r.
    + intros q. rewrite !writes_app. simpl. rewrite !app_nil_r. apply Hfs.
    + done.
Qed.

End Claims.

(** ** The properties on concrete runs *)

Module Runs.

Import Scenario.

(** C1.  The scenario of the specification: three matched files, [dryRun]
    off, an interval of 500 ms, and three transforms that succeed with A2,
    B2 and C2.  The three files are overwritten, and the run makes three
    delays, not two: the last delay follows the last write and comes just
    before the end of the run. *)
Theorem delay_after_last_file :
  exists fs' tr,
    run (env0 key [a_js; b_js; c_js] answers) (cfg0 false) fs0
      = (Return tt, fs', tr) /\
    writes tr = [(a_js, lit "A2"); (b_js, lit "B2"); (c_js, lit "C2")] /\
    skipped tr = [] /\
    delays tr = [500; 500; 500] /\
    drop (length tr - 3) tr
      = [ELog (Overwrote (lit "c.js")); ESetTimeout 500; ELog AllDone].
Proof. eexists _, _. split; [reflexivity|]. by vm_compute. Qed.

(** C2, as it is stated, fails: without a credential and without a matched
    file the run resolves the patterns and ends with exit code 0. *)
Lemma missing_credential_counterexample :
  falsy (OPENAI_API_KEY (env0 None [] answers)) = true /\
  run (env0 None [] answers) (cfg0 false) fs0
    = (ProcessExit 0, fs0,
       [EGlob [lit "*.js"] []; ELog NoFilesMatched]) /\
  exit_code (run (env0 None [] answers) (cfg0 false) fs0).1.1 = 0%Z /\
  globs (run (env0 None [] answers) (cfg0 false) fs0).2 = 1%nat.
Proof. repeat split. Qed.

Lemma missing_credential_aborts_witness :
  falsy (OPENAI_API_KEY (env0 None [a_js; b_js] answers)) = true /\
  exists r tr,
    run (env0 None [a_js; b_js] answers) (cfg0 false) fs0 = (r, fs0, tr) /\
    globs tr = 1%nat /\
    requests tr = [] /\ reads tr = [] /\ writes tr = [] /\
    (forall f rest,
        glob (env0 None [a_js; b_js] answers)
          (patterns (cfg0 false)) (ignore (cfg0 false)) = Ok (f :: rest) ->
        exit_code r = 1%Z).
Proof.
  split; [reflexivity|].
  apply (missing_credential_aborts (env0 None [a_js; b_js] answers)
           (cfg0 false) fs0).
  reflexivity.
Defined.

Lemma zero_match_short_circuit_witness :
  glob (env0 key [] answers) (patterns (cfg0 false)) (ignore (cfg0 false))
    = Ok [] /\
  exists r tr,
    run (env0 key [] answers) (cfg0 false) fs0 = (r, fs0, tr) /\
    exit_code r = 0%Z /\
    requests tr = [] /\ reads tr = [] /\ writes tr = [].
Proof.
  split; [reflexivity|].
  apply (zero_match_short_circuit (env0 key [] answers) (cfg0 false) fs0).
  reflexivity.
Defined.

Lemma dry_run_single_file_witness :
  exists code tr,
    run (env0 key [a_js; b_js] answers) (cfg0 true) fs0
      = (ProcessExit code, fs0, tr) /\
    reads tr = [a_js] /\
    processed tr = [relative (env0 key [a_js; b_js] answers) a_js] /\
    (length (requests tr) <= 1)%nat /\ writes tr = [] /\
    (forall text,
        transform (env0 key [a_js; b_js] answers) (cfg0 true)
          (State fs0 0) a_js = Success text ->
        code = 0%Z /\ printed tr = [text] /\ skipped tr = []).
Proof.
  apply (dry_run_single_file (env0 key [a_js; b_js] answers) (cfg0 true)
           fs0 a_js [b_js]); reflexivity.
Defined.

Lemma dry_run_failure_aborts_witness :
  returned_text
    (transform (env0 key [gone_js; a_js] answers) (cfg0 true)
       (State fs0 0) gone_js) = None /\
  exists r tr,
    run (env0 key [gone_js; a_js] answers) (cfg0 true) fs0 = (r, fs0, tr) /\
    exit_code r = 1%Z /\
    reads tr = [gone_js] /\
    skipped tr = [relative (env0 key [gone_js; a_js] answers) gone_js] /\
    printed tr = [] /\ writes tr = [].
Proof.
  split; [reflexivity|].
  apply (dry_run_failure_aborts (env0 key [gone_js; a_js] answers)
           (cfg0 true) fs0 gone_js [a_js]); reflexivity.
Defined.

Lemma skip_does_not_halt_witness :
  exists r fs' tr,
    run (env0 key [a_js; gone_js; c_js] answers) (cfg0 false) fs0
      = (r, fs', tr) /\
    exit_code r = 0%Z /\
    reads tr = [a_js; gone_js; c_js] /\
    processed tr
      = map (relative (env0 key [a_js; gone_js; c_js] answers))
          [a_js; gone_js; c_js].
Proof.
  apply (skip_does_not_halt (env0 key [a_js; gone_js; c_js] answers)
           (cfg0 false) fs0 [a_js; gone_js; c_js]); reflexivity.
Defined.

(** The same run, evaluated: the second file is skipped, the third is
    still processed, and the process ends with code 0. *)
Example skip_in_the_middle :
  exists fs' tr,
    run (env0 key [a_js; gone_js; c_js] answers) (cfg0 false) fs0
      = (Return tt, fs', tr) /\
    skipped tr = [lit "gone.js"] /\
    writes tr = [(a_js, lit "A2"); (c_js, lit "B2")] /\
    delays tr = [500; 500].
Proof. eexists _, _. split; [reflexivity|]. by vm_compute. Qed.



Lemma null_content_is_skipped_witness :
  exists r st' tr,
    loop_body (env0 key [a_js] null_answer) (cfg0 false) a_js (State fs0 0)
      = (r, st', tr) /\
    skipped tr = [relative (env0 key [a_js] null_answer) a_js] /\
    writes tr = [] /\
    st_fs st' = st_fs (State fs0 0) /\
    r = Return tt.
Proof.
  apply (null_content_is_skipped (env0 key [a_js] null_answer) (cfg0 false)
           a_js (State fs0 0) (lit "A") None []); reflexivity.
Defined.

Lemma one_outcome_per_target_witness :
  NoDup [a_js; gone_js; c_js] /\
  exists r fs' tr sk pv,
    run (env0 key [a_js; gone_js; c_js] answers) (cfg0 false) fs0
      = (r, fs', tr) /\
    reads tr = [a_js; gone_js; c_js] /\
    NoDup (reads tr) /\
    processed tr
      = map (relative (env0 key [a_js; gone_js; c_js] answers)) (reads tr) /\
    skipped tr
      = map (relative (env0 key [a_js; gone_js; c_js] answers)) sk /\
    length (printed tr) = length pv /\
    (false = false -> pv = []) /\
    (false = true -> writes tr = []) /\
    sk ++ (writes tr).*1 ++ pv ≡ₚ reads tr /\
    (forall f, f ∈ reads tr ->
       (f ∈ sk) /\ (f ∉ (writes tr).*1) /\ (f ∉ pv) \/
       (f ∈ (writes tr).*1) /\ (f ∉ sk) /\ (f ∉ pv) \/
       (f ∈ pv) /\ (f ∉ sk) /\ (f ∉ (writes tr).*1)) /\
    (forall f,
        ~ (relative (env0 key [a_js; gone_js; c_js] answers) f ∈ skipped tr
           /\ f ∈ (writes tr).*1)) /\
    (forall q, q ∉ (writes tr).*1 -> fs' !! q = fs0 !! q).
Proof.
  assert (Hnd : NoDup [a_js; gone_js; c_js]).
  { apply (bool_decide_unpack _). vm_compute. exact I. }
  split; [exact Hnd|].
  apply (one_outcome_per_target (env0 key [a_js; gone_js; c_js] answers)
           (cfg0 false) fs0 [a_js; gone_js; c_js]); [reflexivity|exact Hnd|].
  intros p q Hp Hq.
  repeat (apply elem_of_cons in Hp as [->|Hp]);
    repeat (apply elem_of_cons in Hq as [->|Hq]);
    try (by apply elem_of_nil in Hp); try (by apply elem_of_nil in Hq);
    vm_compute; congruence.
Defined.

(** The same run, evaluated: the second file is the one skipped, the two
    others are written, nothing is printed. *)
Example one_outcome_each :
  exists r fs' tr,
    run (env0 key [a_js; gone_js; c_js] answers) (cfg0 false) fs0
      = (r, fs', tr) /\
    skipped tr = [lit "gone.js"] /\
    (writes tr).*1 = [a_js; c_js] /\
    printed tr = [].
Proof. eexists _, _, _. split; [reflexivity|]. by vm_compute. Qed.

End Runs.

(** * More of the pipeline *)

Section Pipeline.

Context (env : environment) (cfg : config).

(** One turn of the loop, in either mode. *)
Lemma loop_body_shape f st r st' tr :
  loop_body env cfg f st = (r, st', tr) ->
  reads tr = [f] /\
  requests tr = match fs_readFile (st_fs st) f with
                | Ok content => [completion_request env cfg content]
                | Throws _ => []
                end /\
  (writes tr = [] /\ st_fs st' = st_fs st \/
   exists text, writes tr = [(f, text)] /\ dryRun cfg = false /\
                requests tr <> [] /\ st_fs st' = written (st_fs st) f text) /\
  (r = Return tt /\ dryRun cfg = false \/
   dryRun cfg = true /\ (r = ProcessExit 0 \/ r = ProcessExit 1)).
Proof.
  unfold completion_request. unfold_io.
  destruct (fs_readFile (st_fs st) f) as [content|err]; cbn [st_fs st_requests].
  - destruct (create env _ _) as [[[[|[[text|]] cs]|]]|err];
      destruct (dryRun cfg) eqn:Hdry; simpl.
    all: try (intros [= <- <- <-];
              split; [done|]; split; [done|];
              split; [by left|]; first [by left | right; split; auto]).
    unfold written.
    destruct (fs_writeFile (st_fs st) f text) as [fs'|err'] eqn:Hw;
      simpl; intros [= <- <- <-].
    all: split; [done|]; split; [done|]; split; [|by left].
    all: right; exists text; rewrite Hw; by repeat split.
  - destruct (dryRun cfg) eqn:Hdry; simpl; intros [= <- <- <-].
    all: split; [done|]; split; [done|];
         split; [by left|]; first [by left | right; split; auto].
Qed.

Lemma written_other fs f text q :
  q <> f -> written fs f text !! q = fs !! q.
Proof.
  intros Hq. unfold written.
  destruct (fs_writeFile fs f text) as [fs'|err] eqn:Hw; [|done].
  by apply (fs_writeFile_ok _ _ _ _ Hw).
Qed.

(** The loop, in either mode: what it reads, asks and writes, and what it
    leaves alone. *)
Lemma for_of_shape l : forall st r st' tr,
  for_of l (loop_body env cfg) st = (r, st', tr) ->
  reads tr `prefix_of` l /\
  (writes tr).*1 `sublist_of` l /\
  (length (writes tr) <= length (requests tr) <= length (reads tr))%nat /\
  Forall (fun rq => exists content, rq = completion_request env cfg content)
    (requests tr) /\
  (forall q, q ∉ l -> st_fs st' !! q = st_fs st !! q) /\
  (dryRun cfg = true -> writes tr = [] /\ st_fs st' = st_fs st) /\
  (exit_code r = 0%Z \/ exit_code r = 1%Z).
Proof.
  induction l as [|f l IH]; intros st r st' tr.
  { intros [= <- <- <-]. repeat split; try done; simpl; try lia; by left. }
  rewrite for_of_cons.
  destruct (loop_body env cfg f st) as [[r1 st1] tr1] eqn:Hb.
  destruct (loop_body_shape _ _ _ _ _ Hb) as (Hr1 & Hq1 & Hw1 & Hx1).
  assert (Hlen1 : (length (writes tr1) <= length (requests tr1) <= 1)%nat).
  { rewrite Hq1. destruct Hw1 as [[-> _]|(text & Hw & _ & Hne & _)].
    - destruct (fs_readFile (st_fs st) f); simpl; lia.
    - rewrite Hw. rewrite Hq1 in Hne.
      destruct (fs_readFile (st_fs st) f); [simpl; lia | done]. }
  assert (Hform1 : Forall (fun rq => exists content,
                     rq = completion_request env cfg content) (requests tr1)).
  { rewrite Hq1. destruct (fs_readFile (st_fs st) f); repeat constructor.
    by eexists. }
  assert (Hsub1 : (writes tr1).*1 `sublist_of` [f]).
  { destruct Hw1 as [[-> _]|(text & -> & _)]; simpl.
    - apply sublist_nil_l.
    - done. }
  assert (Hfs1 : forall q, q <> f -> st_fs st1 !! q = st_fs st !! q).
  { intros q Hq. destruct Hw1 as [[_ ->]|(text & _ & _ & _ & ->)]; [done|].
    by apply written_other. }
  assert (Hdry1 : dryRun cfg = true -> writes tr1 = [] /\ st_fs st1 = st_fs st).
  { intros Hdry. destruct Hw1 as [?|(text & _ & Hn & _)]; [done|congruence]. }
  destruct r1 as [[]|code].
  - destruct (for_of l (loop_body env cfg) st1) as [[r2 st2] tr2] eqn:Hl.
    destruct (IH _ _ _ _ Hl) as (Hr2 & Hsub2 & Hlen2 & Hform2 & Hfs2 & Hdry2 & Hx2).
    intros [= <- <- <-].
    rewrite reads_app, writes_app, requests_app, fmap_app, !length_app, Hr1.
    repeat split.
    + by apply prefix_cons.
    + by apply (sublist_app _ [f] _ l).
    + lia.
    + simpl. lia.
    + by apply Forall_app.
    + intros q Hq. apply not_elem_of_cons in Hq as [Hqf Hql].
      by rewrite Hfs2, Hfs1.
    + destruct (Hdry1 H) as [-> _]. by destruct (Hdry2 H) as [-> _].
    + destruct (Hdry1 H) as [_ <-]. by destruct (Hdry2 H) as [_ ->].
    + done.
  - intros [= <- <- <-]. rewrite Hr1. repeat split.
    + by apply prefix_cons, prefix_nil.
    + etrans; [exact Hsub1|]. by apply sublist_skip, sublist_nil_l.
    + lia.
    + simpl. lia.
    + done.
    + intros q Hq. apply not_elem_of_cons in Hq as [Hqf Hql]. by apply Hfs1.
    + by destruct (Hdry1 H).
    + by destruct (Hdry1 H).
    + destruct Hx1 as [[? _]|[_ [[= ->]|[= ->]]]]; [done| by left | by right].
Qed.

End Pipeline.

Section PipelineRuns.

Context (env : environment) (cfg : config).

(** A run is the matcher and the credential test, and then either nothing
    more or the loop over the matched files. *)
Lemma run_cases fs :
  exists r fs' tr,
    run env cfg fs = (r, fs', tr) /\
    (fs' = fs /\ reads tr = [] /\ requests tr = [] /\ writes tr = [] /\
     (exit_code r = 0%Z \/ exit_code r = 1%Z) \/
     exists r0 st' tr0,
       for_of (matched_files env cfg) (loop_body env cfg) (State fs 0)
         = (r0, st', tr0) /\
       exit_code r = exit_code r0 /\ fs' = st_fs st' /\
       reads tr = reads tr0 /\ requests tr = requests tr0 /\
       writes tr = writes tr0).
Proof.
  unfold run, matched_files.
  destruct (glob env (patterns cfg) (ignore cfg)) as [[|f rest]|err] eqn:Hg.
  - rewrite (main_no_match env cfg _ Hg). eexists _, _, _.
    split; [done|]. left. repeat split; by left.
  - destruct (falsy (OPENAI_API_KEY env)) eqn:Hk.
    + rewrite (main_no_key env cfg _ _ _ Hg Hk). eexists _, _, _.
      split; [done|]. left. repeat split; by right.
    + rewrite (main_loop env cfg _ _ _ Hg Hk).
      destruct (for_of (f :: rest) (loop_body env cfg) (State fs 0))
        as [[r0 st'] tr0] eqn:Hl.
      destruct r0 as [[]|code];
        eexists _, _, _; (split; [done|]); right;
        [exists (Return tt), st', tr0 | exists (ProcessExit code), st', tr0];
        (split; [done|]);
        rewrite !reads_app, !requests_app, !writes_app; simpl;
        by rewrite ?app_nil_r.
  - rewrite (main_glob_throws env cfg _ _ Hg). eexists _, _, _.
    split; [done|]. left. repeat split; by right.
Qed.

(** X1.  The exit code of a run is 0 or 1, and it is 1 exactly when the
    matcher fails, when files matched and the credential is missing, or
    when [dryRun] is on and the transform of the first file fails. *)
Theorem exit_code_of_a_run (fs : gmap path file) :
  (exit_code (run env cfg fs).1.1 = 0%Z \/
   exit_code (run env cfg fs).1.1 = 1%Z) /\
  (exit_code (run env cfg fs).1.1 = 1%Z <->
   match glob env (patterns cfg) (ignore cfg) with
   | Throws _ => True
   | Ok [] => False
   | Ok (f :: _) =>
       falsy (OPENAI_API_KEY env) = true \/
       dryRun cfg = true /\
       returned_text (transform env cfg (State fs 0) f) = None
   end).
Proof.
  unfold run.
  destruct (glob env (patterns cfg) (ignore cfg)) as [[|f rest]|err] eqn:Hg.
  - rewrite (main_no_match env cfg _ Hg). simpl. split; [by left|]. done.
  - destruct (falsy (OPENAI_API_KEY env)) eqn:Hk.
    + rewrite (main_no_key env cfg _ _ _ Hg Hk). simpl.
      split; [by right|]. split; [by left|done].
    + rewrite (main_loop env cfg _ _ _ Hg Hk).
      destruct (dryRun cfg) eqn:Hdry.
      * rewrite for_of_cons.
        destruct (loop_body_dry env cfg f (State fs 0) Hdry)
          as (code & st' & tr & Hb & _ & _ & _ & _ & _ & _ & Hcase).
        rewrite Hb. simpl.
        destruct (transform env cfg (State fs 0) f);
          destruct Hcase as (-> & _ & _); simpl;
          (split; [by (left + right)|]); split; try done;
          try (intros _; by right);
          by intros [|[_ ?]].
      * destruct (for_of_normal env cfg (f :: rest) (State fs 0) Hdry)
          as (st' & tr & sk & Hl & _).
        rewrite Hl. simpl. split; [by left|]. split; [done|].
        by intros [|[? _]].
  - rewrite (main_glob_throws env cfg _ _ Hg). simpl.
    split; [by right|done].
Qed.

(** X2.  A run writes only matched files, in the order of the match and
    each at most once for each time it was matched; a file that did not
    match is on disk what it was; and with [dryRun] on nothing is written
    and the file system is left as it was. *)
Theorem writes_follow_the_match (fs : gmap path file) :
  exists r fs' tr,
    run env cfg fs = (r, fs', tr) /\
    (writes tr).*1 `sublist_of` matched_files env cfg /\
    (forall q, q ∉ matched_files env cfg -> fs' !! q = fs !! q) /\
    (dryRun cfg = true -> writes tr = [] /\ fs' = fs).
Proof.
  destruct (run_cases fs) as (r & fs' & tr & Hrun & Hcase).
  exists r, fs', tr. split; [done|].
  destruct Hcase as [(-> & _ & _ & -> & _)|
                     (r0 & st' & tr0 & Hl & _ & -> & _ & _ & ->)].
  - repeat split; try done. apply sublist_nil_l.
  - destruct (for_of_shape env cfg _ _ _ _ _ Hl)
      as (_ & Hsub & _ & _ & Hfs & Hdry & _).
    by repeat split; try apply Hdry.
Qed.

(** X3.  In every run the files read are a first part of the match; there
    are at most as many requests as files read and at most as many writes
    as requests; and every request names the configured model and carries
    the system prompt and the user prompt rendered from some content. *)
Theorem requests_are_backed_by_reads (fs : gmap path file) :
  exists r fs' tr,
    run env cfg fs = (r, fs', tr) /\
    reads tr `prefix_of` matched_files env cfg /\
    (length (writes tr) <= length (requests tr) <= length (reads tr))%nat /\
    Forall (fun rq =>
              req_model rq = model cfg /\
              exists content,
                req_messages rq =
                  [ChatMessage system (systemPrompt env);
                   ChatMessage user (render (userPromptTemplate env) content)])
      (requests tr).
Proof.
  destruct (run_cases fs) as (r & fs' & tr & Hrun & Hcase).
  exists r, fs', tr. split; [done|].
  destruct Hcase as [(_ & -> & -> & -> & _)|
                     (r0 & st' & tr0 & Hl & _ & _ & -> & -> & ->)].
  - repeat split; try done. apply prefix_nil.
  - destruct (for_of_shape env cfg _ _ _ _ _ Hl)
      as (Hpre & _ & Hlen & Hform & _).
    repeat split; try done; try lia.
    eapply Forall_impl; [exact Hform|].
    intros rq [content ->]. split; [done|]. by exists content.
Qed.

Lemma written_congr fs1 fs2 p text :
  fs1 !! p = fs2 !! p -> written fs1 p text !! p = written fs2 p text !! p.
Proof.
  intros H. unfold written, fs_writeFile. rewrite H.
  destruct (fs2 !! p) as [old|] eqn:H2; [destruct (file_writable old)|];
    rewrite ?lookup_insert_eq; congruence.
Qed.

Lemma fs_readFile_congr fs1 fs2 p :
  fs1 !! p = fs2 !! p -> fs_readFile fs1 p = fs_readFile fs2 p.
Proof. intros H. unfold fs_readFile. by rewrite H. Qed.

Lemma omap_ext_in {A B} (f g : A -> option B) (l : list A) :
  (forall x, x ∈ l -> f x = g x) -> omap f l = omap g l.
Proof.
  induction l as [|x l IH]; intros H; [done|].
  change (omap f (x :: l))
    with (match f x with Some y => y :: omap f l | None => omap f l end).
  change (omap g (x :: l))
    with (match g x with Some y => y :: omap g l | None => omap g l end).
  rewrite (H x) by apply list_elem_of_here.
  rewrite IH; [done|]. intros y Hy. apply H. by apply list_elem_of_further.
Qed.

Lemma for_of_distinct l :
  NoDup l ->
  forall st r st' tr,
  for_of l (loop_body env cfg) st = (r, st', tr) ->
  requests tr = omap (request_for env cfg (st_fs st)) (reads tr) /\
  (forall p text, (p, text) ∈ writes tr ->
                  st_fs st' !! p = written (st_fs st) p text !! p).
Proof.
  induction 1 as [|f l Hf Hnd IH]; intros st r st' tr.
  { intros [= <- <- <-]. split; [done|]. intros p text Hin.
    by apply elem_of_nil in Hin. }
  rewrite for_of_cons.
  destruct (loop_body env cfg f st) as [[r1 st1] tr1] eqn:Hb.
  destruct (loop_body_shape _ _ _ _ _ _ _ Hb) as (Hr1 & Hq1 & Hw1 & Hx1).
  assert (Hfs1 : forall q, q <> f -> st_fs st1 !! q = st_fs st !! q).
  { intros q Hq. destruct Hw1 as [[_ ->]|(text & _ & _ & _ & ->)]; [done|].
    by apply written_other. }
  assert (Hreq1 : requests tr1 = omap (request_for env cfg (st_fs st)) [f]).
  { rewrite Hq1. simpl. unfold request_for.
    by destruct (fs_readFile (st_fs st) f). }
  assert (Hfin1 : forall p text, (p, text) ∈ writes tr1 ->
                    p = f /\ st_fs st1 !! p = written (st_fs st) p text !! p).
  { intros p text Hin.
    destruct Hw1 as [[Hw _]|(text0 & Hw & _ & _ & Hst)]; rewrite Hw in Hin.
    - by apply elem_of_nil in Hin.
    - apply list_elem_of_singleton in Hin as [= -> ->]. by rewrite Hst. }
  destruct r1 as [[]|code].
  - destruct (for_of l (loop_body env cfg) st1) as [[r2 st2] tr2] eqn:Hl.
    destruct (IH _ _ _ _ Hl) as (Hreq2 & Hfin2).
    destruct (for_of_shape env cfg _ _ _ _ _ Hl)
      as (Hpre & Hsub & _ & _ & Hfs2 & _).
    intros [= <- <- <-].
    rewrite requests_app, reads_app, writes_app, omap_app, Hr1, <- Hreq1, Hreq2.
    split.
    + f_equal. apply omap_ext_in. intros g Hg. unfold request_for.
      rewrite (fs_readFile_congr (st_fs st1) (st_fs st)); [done|].
      apply Hfs1. intros ->. apply Hf.
      destruct Hpre as [k ->]. apply elem_of_app. by left.
    + intros p text [Hin|Hin]%elem_of_app.
      * destruct (Hfin1 _ _ Hin) as [-> Hst]. by rewrite Hfs2.
      * rewrite (Hfin2 _ _ Hin). apply written_congr, Hfs1.
        intros ->. apply Hf. apply (elem_of_sublist _ _ _ (A:=path)) with (2:=Hsub).
        apply list_elem_of_fmap. by exists (f, text).
  - intros [= <- <- <-]. rewrite Hr1. split; [done|].
    intros p text Hin. by destruct (Hfin1 _ _ Hin) as [-> Hst].
Qed.

(** X4.  When the matcher returns each file once, every file that is read
    is read as it was at the start of the run: the requests of the run are,
    in order, one for each file read that could be read, built from the
    content the file had at the start. *)
Theorem requests_carry_the_original_content (fs : gmap path file) :
  NoDup (matched_files env cfg) ->
  exists r fs' tr,
    run env cfg fs = (r, fs', tr) /\
    requests tr = omap (request_for env cfg fs) (reads tr).
Proof.
  intros Hnd. destruct (run_cases fs) as (r & fs' & tr & Hrun & Hcase).
  exists r, fs', tr. split; [done|].
  destruct Hcase as [(_ & -> & -> & _)|
                     (r0 & st' & tr0 & Hl & _ & _ & -> & -> & _)]; [done|].
  by destruct (for_of_distinct _ Hnd _ _ _ _ Hl) as [-> _].
Qed.

(** X5.  When the matcher returns each file once, a file for which a write
    was made is at the end of the run what that one write makes of the file
    as it was at the start: if the file was not there or could be written,
    it holds the returned text as UTF-8 encodes it (an unpaired surrogate
    being written as U+FFFD) and nothing of what it held; if it could not
    be written, it is as it was. *)
Theorem written_files_hold_the_returned_text (fs : gmap path file) :
  NoDup (matched_files env cfg) ->
  exists r fs' tr,
    run env cfg fs = (r, fs', tr) /\
    forall p text,
      (p, text) ∈ writes tr ->
      fs' !! p =
        match fs !! p with
        | Some old =>
            if file_writable old
            then Some (File (toWellFormed text) (file_readable old) true)
            else Some old
        | None => Some (File (toWellFormed text) true true)
        end.
Proof.
  intros Hnd. destruct (run_cases fs) as (r & fs' & tr & Hrun & Hcase).
  exists r, fs', tr. split; [done|]. intros p text Hin.
  destruct Hcase as [(_ & _ & _ & Hw & _)|
                     (r0 & st' & tr0 & Hl & _ & -> & _ & _ & Hw)].
  { rewrite Hw in Hin. by apply elem_of_nil in Hin. }
  rewrite Hw in Hin.
  destruct (for_of_distinct _ Hnd _ _ _ _ Hl) as [_ Hfin].
  pose proof (Hfin _ _ Hin) as Hp. cbn [st_fs] in Hp. rewrite Hp.
  unfold written, fs_writeFile.
  destruct (fs !! p) as [old|] eqn:Hold; [destruct (file_writable old)|];
    by rewrite ?lookup_insert_eq.
Qed.

End PipelineRuns.

(** * More of the renderer *)

(** X6.  The pattern of the source, matched with backtracking, finds at the
    start of a text exactly the tokens: double braces around the name, with
    any white space between the braces and the name, and nothing else; and
    what it leaves is what follows the token. *)
Theorem pattern_matches_exactly_the_tokens (s rest : jsstring) :
  match_here CONTENT_RE s = Some rest <->
  exists ws1 ws2,
    whitespace ws1 /\ whitespace ws2 /\
    s = (lit "{{" ++ ws1 ++ lit "CONTENT" ++ ws2 ++ lit "}}") ++ rest.
Proof.
  rewrite match_here_token. split.
  - intros (tok & (ws1 & ws2 & H1 & H2 & ->) & ->). by exists ws1, ws2.
  - intros (ws1 & ws2 & H1 & H2 & ->). eexists. split; [|done].
    by exists ws1, ws2.
Qed.

(** The scan with a replacement text whose substitution depends on the
    token only. *)
Lemma replace_scan_cut_by (g : jsstring -> jsstring) c n :
  (forall m b a, GetSubstitution m b a c = g m) ->
  forall s before, (length s <= n)%nat ->
  exists s0 rest,
    s = fill id s0 rest /\
    replace_scan CONTENT_RE c before 0 s = fill g s0 rest /\
    Forall is_token rest.*1 /\
    length rest = count_tokens s.
Proof.
  intros Hg. induction n as [|n IH]; intros s before Hn.
  { destruct s; [|simpl in Hn; lia]. exists [], []. by repeat split. }
  destruct s as [|x s].
  { exists [], []. by repeat split. }
  destruct (match_here CONTENT_RE (x :: s)) as [r|] eqn:Hm.
  - destruct (proj1 (match_here_token _ _) Hm) as (tok & Htok & Hs).
    destruct (token_not_nil _ Htok) as (y & m & ->).
    injection Hs as <- ->.
    destruct (IH r (before ++ x :: m)) as (s0 & rest & Hr & Hrep & Htoks & Hlen).
    { simpl in Hn. rewrite length_app in Hn. lia. }
    exists [], ((x :: m, s0) :: rest). repeat split.
    + by rewrite fill_token, <- Hr.
    + rewrite replace_scan_match by done.
      by rewrite Hg, fill_token, <- Hrep.
    + by constructor.
    + change (x :: m ++ r) with ((x :: m) ++ r).
      rewrite count_tokens_token by done. simpl. by rewrite Hlen.
  - destruct (IH s (before ++ [x])) as (s0 & rest & Hr & Hrep & Htoks & Hlen).
    { simpl in Hn. lia. }
    exists (x :: s0), rest. repeat split; try done.
    + by rewrite fill_cons, <- Hr.
    + rewrite replace_scan_no_match by done.
      by rewrite fill_cons, <- Hrep.
    + cbn [count_tokens]. by rewrite Hm.
Qed.

Lemma GetSubstitution_double_dollars m b a c :
  GetSubstitution m b a (double_dollars c) = c.
Proof.
  induction c as [|x c IH]; [reflexivity|].
  unfold double_dollars. cbn [flat_map].
  fold (double_dollars c).
  destruct (N.eqb_spec x DOLLAR) as [->|Hx].
  - cbn [app GetSubstitution]. rewrite N.eqb_refl. by rewrite IH.
  - cbn [app GetSubstitution].
    destruct (N.eqb_spec x DOLLAR); [done|]. by rewrite IH.
Qed.

(** X7.  A content in which every dollar sign is written twice is put in
    the place of every token with its dollar signs single: doubling the
    dollar signs of a text is the way to have it inserted as it is. *)
Theorem doubled_dollars_are_inserted_single (t c : jsstring) :
  exists s0 rest,
    t = fill id s0 rest /\
    Forall is_token rest.*1 /\
    length rest = count_tokens t /\
    render t (double_dollars c) = fill (fun _ => c) s0 rest.
Proof.
  destruct (replace_scan_cut_by (fun _ => c) (double_dollars c) (length t)
              (fun m b a => GetSubstitution_double_dollars m b a c) t [])
    as (s0 & rest & Ht & Hr & Htok & Hlen); [done|].
  by exists s0, rest.
Qed.

Lemma GetSubstitution_ampersand m b a pre post :
  dollar_free pre = true -> dollar_free post = true ->
  GetSubstitution m b a (pre ++ lit "$&" ++ post) = pre ++ m ++ post.
Proof.
  intros Hpre Hpost. induction pre as [|x pre IH].
  - change (GetSubstitution m b a ([] ++ lit "$&" ++ post))
      with (m ++ GetSubstitution m b a post).
    by rewrite GetSubstitution_literal.
  - simpl in Hpre. apply andb_prop in Hpre as [Hx Hpre].
    apply negb_true_iff in Hx. cbn [app GetSubstitution]. rewrite Hx.
    f_equal. by apply IH.
Qed.

(** X8.  The pattern [$&] in the content stands for the token it replaces:
    a content made of a text, [$&] and a text (the two texts without a
    dollar sign) leaves every token of the template where it is, between
    the two texts. *)
Theorem ampersand_puts_the_token_back (t pre post : jsstring) :
  dollar_free pre = true ->
  dollar_free post = true ->
  exists s0 rest,
    t = fill id s0 rest /\
    Forall is_token rest.*1 /\
    length rest = count_tokens t /\
    render t (pre ++ lit "$&" ++ post)
      = fill (fun tok => pre ++ tok ++ post) s0 rest.
Proof.
  intros Hpre Hpost.
  destruct (replace_scan_cut_by (fun tok => pre ++ tok ++ post)
              (pre ++ lit "$&" ++ post) (length t)
              (fun m b a => GetSubstitution_ampersand m b a pre post Hpre Hpost)
              t [])
    as (s0 & rest & Ht & Hr & Htok & Hlen); [done|].
  by exists s0, rest.
Qed.

Lemma ampersand_puts_the_token_back_witness :
  exists s0 rest,
    lit "a {{ CONTENT }} b" = fill id s0 rest /\
    Forall is_token rest.*1 /\
    length rest = count_tokens (lit "a {{ CONTENT }} b") /\
    render (lit "a {{ CONTENT }} b") (lit "<" ++ lit "$&" ++ lit ">")
      = fill (fun tok => lit "<" ++ tok ++ lit ">") s0 rest.
Proof.
  apply (ampersand_puts_the_token_back (lit "a {{ CONTENT }} b")
           (lit "<") (lit ">")); reflexivity.
Defined.

(** In particular the content [$&] changes no template. *)
Theorem ampersand_content_changes_nothing (t : jsstring) :
  render t (lit "$&") = t.
Proof.
  destruct (replace_scan_cut_by (fun tok => tok) (lit "$&") (length t)
              (fun m b a => eq_trans
                 (GetSubstitution_ampersand m b a [] [] eq_refl eq_refl)
                 (app_nil_r m)) t [])
    as (s0 & rest & Ht & Hr & _); [done|].
  unfold render, replace. rewrite Hr. symmetry. exact Ht.
Qed.

(** * The start of the program and the whole of it *)

Import Cli.

Lemma starts_with_app c s :
  starts_with c s = true <-> exists v, s = c ++ v.
Proof.
  revert s. induction c as [|x c IH]; intros s.
  - split; [by exists s | by destruct s].
  - destruct s as [|y s]; simpl.
    + split; [done | by intros [v ?]].
    + rewrite andb_true_iff, IH. split.
      * intros [->%N.eqb_eq [v ->]]. by exists v.
      * intros [v [= -> ->]]. split; [apply N.eqb_refl | by exists v].
Qed.

(** The first piece of a split is the text before the first separator. *)
Lemma split_first sep p q :
  Forall (fun x => x <> sep) p ->
  (q = [] \/ exists q', q = sep :: q') ->
  exists pieces, split sep (p ++ q) = p :: pieces.
Proof.
  intros Hp Hq. induction Hp as [|x p Hx _ [pieces IH]].
  - destruct Hq as [->|[q' ->]]; simpl.
    + by exists [].
    + rewrite N.eqb_refl. by eexists.
  - cbn [app split]. destruct (N.eqb_spec x sep); [done|].
    rewrite IH. by eexists.
Qed.

Lemma cut_at sep (v : jsstring) :
  exists p q,
    v = p ++ q /\ Forall (fun x => x <> sep) p /\
    (q = [] \/ exists q', q = sep :: q').
Proof.
  induction v as [|x v (p & q & -> & Hp & Hq)].
  - exists [], []. repeat split; [constructor | by left].
  - destruct (N.eqb_spec x sep) as [->|Hx].
    + exists [], (sep :: p ++ q). repeat split; [constructor|].
      right. by eexists.
    + exists (x :: p), q. repeat split; [by constructor | done].
Qed.

Lemma parseConfigArg_from_spec (args : list jsstring) :
  (Forall (fun a => startsWith a (lit "--config=") = false) args /\
   parseConfigArg_from args = (ProcessExit 1, [SError Usage])) \/
  (exists pre p q post,
     args = pre ++ (lit "--config=" ++ p ++ q) :: post /\
     Forall (fun a => startsWith a (lit "--config=") = false) pre /\
     Forall (fun x => x <> EQUALS) p /\
     (q = [] \/ exists q', q = EQUALS :: q') /\
     parseConfigArg_from args = (Return (Some p), [])).
Proof.
  induction args as [|arg args IH].
  - left. by split.
  - cbn [parseConfigArg_from].
    destruct (startsWith arg (lit "--config=")) eqn:Hs.
    + right. apply starts_with_app in Hs as [v ->].
      destruct (cut_at EQUALS v) as (p & q & -> & Hp & Hq).
      exists [], p, q, args. repeat split; try done.
      change (lit "--config=" ++ p ++ q)
        with (lit "--config" ++ EQUALS :: p ++ q).
      destruct (split_first EQUALS p q Hp Hq) as [pieces Hpieces].
      replace (split EQUALS (lit "--config" ++ EQUALS :: p ++ q))
        with (lit "--config" :: split EQUALS (p ++ q)) by reflexivity.
      by rewrite Hpieces.
    + destruct IH as [[Hall ->]|(pre & p & q & post & -> & Hpre & Hp & Hq & ->)].
      * left. split; [by constructor | done].
      * right. exists (arg :: pre), p, q, post. repeat split; try done.
        by constructor.
Qed.

(** X9.  [parseConfigArg] looks at the arguments after the first two.
    Without an argument that starts with [--config=] it prints the usage
    and ends the process with code 1.  Otherwise it returns, for the first
    such argument, what stands between [--config=] and the next equals
    sign or the end: always a string, and one without an equals sign, so
    that a path with an equals sign in it is cut short. *)
Theorem parseConfigArg_returns_up_to_equals (pf : platform) :
  (Forall (fun a => startsWith a (lit "--config=") = false)
     (drop 2 (process_argv pf)) /\
   parseConfigArg pf = (ProcessExit 1, [SError Usage])) \/
  (exists pre p q post,
     drop 2 (process_argv pf) = pre ++ (lit "--config=" ++ p ++ q) :: post /\
     Forall (fun a => startsWith a (lit "--config=") = false) pre /\
     Forall (fun x => x <> EQUALS) p /\
     (q = [] \/ exists q', q = EQUALS :: q') /\
     parseConfigArg pf = (Return (Some p), [])).
Proof. apply parseConfigArg_from_spec. Qed.

(** The start either ends the process with code 1 after one error, having
    read at most the three files in their order, or it has read the three
    files and hands on what they hold. *)
Lemma startup_cases (pf : platform) (fs : gmap path file) :
  let sys_path := path_join pf (process_cwd pf) (lit "brush.system.md") in
  let usr_path := path_join pf (process_cwd pf) (lit "brush.prompt.md") in
  (exists ps m,
     startup pf fs = (ProcessExit 1, map SReadFile ps ++ [SError m]) /\
     (length ps <= 3)%nat) \/
  (exists p raw parsed sys tpl,
     parseConfigArg pf = (Return (Some p), []) /\
     fs_readFile fs p = Ok raw /\ JSON_parse pf raw = Ok parsed /\
     default [] (json_patterns parsed) <> [] /\
     fs_readFile fs sys_path = Ok sys /\
     fs_readFile fs usr_path = Ok tpl /\
     startup pf fs =
       (Return
          (Environment (process_cwd pf) (path_relative_to pf) sys tpl
             (fast_glob_of pf) (process_env_OPENAI_API_KEY pf)
             (completions_create pf),
           Config (default [] (json_patterns parsed))
             (default [] (json_ignore parsed))
             (default false (json_dryRun parsed))
             (default (lit "gpt-3.5-turbo") (json_model parsed))
             (default 1000 (json_intervalMilis parsed))),
        [SReadFile p; SReadFile sys_path; SReadFile usr_path])).
Proof.
  intros sys_path usr_path. unfold startup.
  destruct (parseConfigArg_from_spec (drop 2 (process_argv pf)))
    as [[_ Hp]|(pre & p & q & post & _ & _ & _ & _ & Hp)];
    fold (parseConfigArg pf) in Hp; [rewrite Hp|].
  { left. exists [], Usage. split; [done | simpl; lia]. }
  rewrite Hp. cbn [boot_bind boot_readFile app].
  destruct (fs_readFile fs p) as [raw|err] eqn:Hraw; cycle 1.
  { left. exists [p], (ConfigFailed (Some p) err). split; [done | simpl; lia]. }
  destruct (JSON_parse pf raw) as [parsed|err] eqn:Hparse; cycle 1.
  { left. exists [p], (ConfigFailed (Some p) err). split; [done | simpl; lia]. }
  cbn [boot_bind boot_ret app].
  destruct (decide (length (default [] (json_patterns parsed)) = 0%nat))
    as [Hlen|Hlen].
  { left. exists [p], (PatternsMustBeNonEmpty (Some p)).
    split; [done | simpl; lia]. }
  cbn [boot_bind boot_ret boot_readFile app].
  fold sys_path usr_path.
  destruct (fs_readFile fs sys_path) as [sys|err] eqn:Hsys; cycle 1.
  { left. exists [p; sys_path], (SystemPromptFailed sys_path err).
    split; [done | simpl; lia]. }
  cbn [boot_bind boot_ret app].
  destruct (fs_readFile fs usr_path) as [tpl|err] eqn:Husr; cycle 1.
  { left. exists [p; sys_path; usr_path], (UserPromptFailed usr_path err).
    split; [done | simpl; lia]. }
  right. exists p, raw, parsed, sys, tpl. repeat split; try done.
  intros Hnil. apply Hlen. by rewrite Hnil.
Qed.

Lemma run_exit_code_0_or_1 env cfg fs :
  exit_code (run env cfg fs).1.1 = 0%Z \/ exit_code (run env cfg fs).1.1 = 1%Z.
Proof.
  destruct (run_cases env cfg fs) as (r & fs' & tr & Hrun & Hcase).
  rewrite Hrun. simpl.
  destruct Hcase as [(_ & _ & _ & _ & H)|(r0 & st' & tr0 & Hl & -> & _)];
    [done|].
  by destruct (for_of_shape env cfg _ _ _ _ _ Hl) as (_ & _ & _ & _ & _ & _ & H).
Qed.

Lemma run_starts_with_the_matcher env cfg fs :
  exists tr', (run env cfg fs).2 = EGlob (patterns cfg) (ignore cfg) :: tr'.
Proof.
  unfold run.
  destruct (glob env (patterns cfg) (ignore cfg)) as [[|f rest]|err] eqn:Hg.
  - rewrite (main_no_match env cfg _ Hg). by eexists.
  - destruct (falsy (OPENAI_API_KEY env)) eqn:Hk.
    + rewrite (main_no_key env cfg _ _ _ Hg Hk). by eexists.
    + rewrite (main_loop env cfg _ _ _ Hg Hk).
      destruct (for_of _ _ _) as [[[[]|code] st'] tr]; by eexists.
  - rewrite (main_glob_throws env cfg _ _ Hg). by eexists.
Qed.

Lemma omap_map_none {A B C} (f : B -> option C) (g : A -> B) (l : list A) :
  (forall x, f (g x) = None) -> omap f (map g l) = [].
Proof.
  intros H. induction l as [|x l IH]; [done|].
  change (omap f (map g (x :: l)))
    with (match f (g x) with
          | Some y => y :: omap f (map g l)
          | None => omap f (map g l)
          end).
  by rewrite H.
Qed.

Lemma omap_map_some {A B} (f : B -> option A) (g : A -> B) (l : list A) :
  (forall x, f (g x) = Some x) -> omap f (map g l) = l.
Proof.
  intros H. induction l as [|x l IH]; [done|].
  change (omap f (map g (x :: l)))
    with (match f (g x) with
          | Some y => y :: omap f (map g l)
          | None => omap f (map g l)
          end).
  by rewrite H, IH.
Qed.

Lemma pipeline_app (tr0 : list startup_event) (tr : list event) :
  pipeline (map inl tr0 ++ map inr tr) = tr.
Proof.
  unfold pipeline. rewrite omap_app.
  by rewrite omap_map_none, omap_map_some.
Qed.

Lemma startup_errors_app (tr0 : list startup_event) (tr : list event) :
  startup_errors (map inl tr0 ++ map inr tr)
  = omap (fun e => match e with SError m => Some m | _ => None end) tr0.
Proof.
  unfold startup_errors. rewrite omap_app.
  rewrite (omap_map_none _ inr) by done. rewrite app_nil_r.
  induction tr0 as [|e tr0 IH]; [done|].
  change (map inl (e :: tr0)) with (@inl _ event e :: map inl tr0).
  destruct e; cbn; by rewrite <- IH.
Qed.

Lemma startup_reads_app (tr0 : list startup_event) (tr : list event) :
  startup_reads (map inl tr0 ++ map inr tr)
  = omap (fun e => match e with SReadFile p => Some p | _ => None end) tr0.
Proof.
  unfold startup_reads. rewrite omap_app.
  rewrite (omap_map_none _ inr) by done. rewrite app_nil_r.
  induction tr0 as [|e tr0 IH]; [done|].
  change (map inl (e :: tr0)) with (@inl _ event e :: map inl tr0).
  destruct e; cbn; by rewrite <- IH.
Qed.

(** X10.  The whole program ends with exit code 0 or 1. *)
Theorem program_exit_code (pf : platform) (fs : gmap path file) :
  exit_code (brush pf fs).1.1 = 0%Z \/ exit_code (brush pf fs).1.1 = 1%Z.
Proof.
  unfold brush.
  destruct (startup_cases pf fs)
    as [(ps & m & -> & _)|(p & raw & parsed & sys & tpl & _ & _ & _ & _ & _ & _ & ->)].
  - by right.
  - match goal with |- context [run ?e ?c fs] =>
      pose proof (run_exit_code_0_or_1 e c fs) as H;
      destruct (run e c fs) as [[r fs'] tr] end.
    exact H.
Qed.

(** X11.  Nothing of the pipeline happens before the start is through.
    Either the start fails: then the process ends with code 1 after exactly
    one error message, at most three files have been read, no pattern has
    been resolved, and the file system is as it was.  Or the configuration
    file and the two prompt files have been read, in this order and
    without an error, and the pipeline follows, the matcher first. *)
Theorem startup_comes_first (pf : platform) (fs : gmap path file) :
  exists r fs' tr,
    brush pf fs = (r, fs', tr) /\
    (pipeline tr = [] /\ exit_code r = 1%Z /\ fs' = fs /\
     length (startup_errors tr) = 1%nat /\
     (length (startup_reads tr) <= 3)%nat
     \/
     exists p pats ign rest,
       tr = [inl (SReadFile p);
             inl (SReadFile
                    (path_join pf (process_cwd pf) (lit "brush.system.md")));
             inl (SReadFile
                    (path_join pf (process_cwd pf) (lit "brush.prompt.md")))]
              ++ map inr (pipeline tr) /\
       startup_errors tr = [] /\
       pipeline tr = EGlob pats ign :: rest).
Proof.
  unfold brush.
  destruct (startup_cases pf fs)
    as [(ps & m & -> & Hps)|(p & raw & parsed & sys & tpl & _ & _ & _ & _ & _ & _ & ->)].
  - eexists _, _, _. split; [done|]. left.
    rewrite <- (app_nil_r (map inl _)).
    change (@nil (startup_event + event))
      with (map (@inr startup_event event) []).
    rewrite pipeline_app, startup_errors_app, startup_reads_app.
    rewrite !omap_app, (omap_map_none _ SReadFile), (omap_map_some _ SReadFile)
      by done.
    simpl. rewrite app_nil_r. by repeat split.
  - match goal with |- context [run ?e ?c fs] =>
      destruct (run_starts_with_the_matcher e c fs) as [rest Hhead];
      destruct (run e c fs) as [[r fs'] tr] end.
    simpl in Hhead. subst tr.
    eexists _, _, _. split; [done|]. right.
    eexists p, _, _, rest. rewrite pipeline_app, startup_errors_app.
    by repeat split.
Qed.

(** X12.  The prompts are loaded once: every request of the program
    carries, as its system message, the text that [brush.system.md] held
    when the program started and, as its user message, the text that
    [brush.prompt.md] held then, rendered with some content, whatever the
    run has written since. *)
Theorem prompts_are_loaded_once (pf : platform) (fs : gmap path file) :
  Forall
    (fun rq =>
       exists sys tpl content,
         fs_readFile fs (path_join pf (process_cwd pf) (lit "brush.system.md"))
           = Ok sys /\
         fs_readFile fs (path_join pf (process_cwd pf) (lit "brush.prompt.md"))
           = Ok tpl /\
         req_messages rq
           = [ChatMessage system sys; ChatMessage user (render tpl content)])
    (requests (pipeline (brush pf fs).2)).
Proof.
  unfold brush.
  destruct (startup_cases pf fs)
    as [(ps & m & -> & Hps)|
        (p & raw & parsed & sys & tpl & _ & _ & _ & _ & Hsys & Htpl & ->)].
  - simpl. rewrite <- (app_nil_r (map inl _)).
    change (@nil (startup_event + event))
      with (map (@inr startup_event event) []).
    rewrite pipeline_app. constructor.
  - match goal with |- context [run ?e ?c fs] =>
      destruct (run_cases e c fs) as (r & fs' & tr & Hrun & Hcase);
      rewrite Hrun end.
    cbn [snd]. rewrite pipeline_app.
    destruct Hcase as [(_ & _ & -> & _)|
                       (r0 & st' & tr0 & Hl & _ & _ & _ & -> & _)];
      [constructor|].
    destruct (for_of_shape _ _ _ _ _ _ _ Hl) as (_ & _ & _ & Hform & _).
    eapply Forall_impl; [exact Hform|].
    intros rq [content ->]. by exists sys, tpl, content.
Qed.

(** X13.  The program changes no file but a matched one, and none at all
    when it stops at the start or when [dryRun] is on: a file that differs
    at the end from what it was is a file that the matcher returned, in a
    run whose start went through with [dryRun] off. *)
Theorem program_changes_only_matched_files (pf : platform)
    (fs : gmap path file) (q : path) :
  (brush pf fs).1.2 !! q <> fs !! q ->
  exists env cfg tr0,
    startup pf fs = (Return (env, cfg), tr0) /\
    q ∈ matched_files env cfg /\
    dryRun cfg = false.
Proof.
  unfold brush.
  destruct (startup_cases pf fs)
    as [(ps & m & -> & Hps)|
        (p & raw & parsed & sys & tpl & _ & _ & _ & _ & _ & _ & ->)].
  { simpl. done. }
  match goal with |- context [run ?e ?c fs] =>
    set (env := e); set (cfg := c);
    destruct (run_cases env cfg fs) as (r & fs' & tr & Hrun & Hcase);
    rewrite Hrun end.
  cbn [fst snd]. intros Hdiff. eexists env, cfg, _. split; [reflexivity|].
  destruct Hcase as [(-> & _)|(r0 & st' & tr0 & Hl & _ & -> & _)]; [done|].
  destruct (for_of_shape _ _ _ _ _ _ _ Hl) as (_ & _ & _ & _ & Hfs & Hdry & _).
  split.
  - destruct (decide (q ∈ matched_files env cfg)) as [|Hnot]; [done|].
    exfalso. apply Hdiff. by apply Hfs.
  - destruct (dryRun cfg) eqn:Hd; [|done].
    exfalso. apply Hdiff. destruct (Hdry eq_refl) as [_ Heq]. by rewrite Heq.
Qed.

(** X14.  A configuration without patterns, be the field missing or the
    list empty, is refused: the program reads the configuration file,
    reports the error and ends with code 1, before it reads a prompt file
    or resolves a pattern, and with the file system as it was. *)
Theorem missing_patterns_are_refused (pf : platform) (fs : gmap path file)
    (p : path) (raw : jsstring) (parsed : parsed_config) :
  parseConfigArg pf = (Return (Some p), []) ->
  fs_readFile fs p = Ok raw ->
  JSON_parse pf raw = Ok parsed ->
  json_patterns parsed = None \/ json_patterns parsed = Some [] ->
  brush pf fs =
    (ProcessExit 1, fs,
     [inl (SReadFile p); inl (SError (PatternsMustBeNonEmpty (Some p)))]).
Proof.
  intros Hp Hraw Hparse Hpat. unfold brush, startup.
  rewrite Hp. cbn [boot_bind boot_readFile app]. rewrite Hraw, Hparse.
  cbn [boot_bind boot_ret app].
  rewrite decide_True; [done|]. by destruct Hpat as [->| ->].
Qed.

Module MoreRuns.

Import Scenario.

Lemma missing_patterns_are_refused_witness :
  brush (platform0 [lit "--config=/w/brush.config.json"]
           (ParsedConfig None None (Some true) None None) [a_js]) fs1 =
    (ProcessExit 1, fs1,
     [inl (SReadFile config_json);
      inl (SError (PatternsMustBeNonEmpty (Some config_json)))]).
Proof.
  apply (missing_patterns_are_refused
           (platform0 [lit "--config=/w/brush.config.json"]
              (ParsedConfig None None (Some true) None None) [a_js])
           fs1 config_json (lit "{...}")
           (ParsedConfig None None (Some true) None None));
    [reflexivity | reflexivity | reflexivity | by left].
Defined.

Lemma program_changes_only_matched_files_witness :
  exists env cfg tr0,
    startup (platform0 [lit "--config=/w/brush.config.json"] only_patterns
               [a_js]) fs1 = (Return (env, cfg), tr0) /\
    a_js ∈ matched_files env cfg /\
    dryRun cfg = false.
Proof.
  apply (program_changes_only_matched_files
           (platform0 [lit "--config=/w/brush.config.json"] only_patterns
              [a_js]) fs1 a_js).
  vm_compute. discriminate.
Defined.

Lemma requests_carry_the_original_content_witness :
  exists r fs' tr,
    run (env0 key [a_js; gone_js; c_js] answers) (cfg0 false) fs0
      = (r, fs', tr) /\
    requests tr
      = omap (request_for (env0 key [a_js; gone_js; c_js] answers)
                (cfg0 false) fs0) (reads tr).
Proof.
  apply (requests_carry_the_original_content
           (env0 key [a_js; gone_js; c_js] answers) (cfg0 false) fs0).
  apply (bool_decide_unpack _). vm_compute. exact I.
Defined.

Lemma written_files_hold_the_returned_text_witness :
  exists r fs' tr,
    run (env0 key [a_js; gone_js; c_js] answers) (cfg0 false) fs0
      = (r, fs', tr) /\
    forall p text,
      (p, text) ∈ writes tr ->
      fs' !! p =
        match fs0 !! p with
        | Some old =>
            if file_writable old
            then Some (File (toWellFormed text) (file_readable old) true)
            else Some old
        | None => Some (File (toWellFormed text) true true)
        end.
Proof.
  apply (written_files_hold_the_returned_text
           (env0 key [a_js; gone_js; c_js] answers) (cfg0 false) fs0).
  apply (bool_decide_unpack _). vm_compute. exact I.
Defined.

Lemma delay_follows_every_write_witness :
  exists fs' tr,
    run (env0 key [a_js; gone_js; c_js] answers) (cfg0 false) fs0
      = (Return tt, fs', tr) /\
    delays tr = replicate (length (writes tr)) (intervalMilis (cfg0 false)).
Proof.
  apply (delay_follows_every_write
           (env0 key [a_js; gone_js; c_js] answers) (cfg0 false) fs0
           a_js [gone_js; c_js]); reflexivity.
Defined.

End MoreRuns.
